(** * Colour Checker: the colour codec and the input validator of [src/App.vue]

    A shallow embedding of the script block of [App.vue]:
    [hexToRgb], [rgbToHex], [rgbToYcbcr], [ycbcrToRgb], [colorInfo],
    [validateAndConvertColor] and the watcher on [inputType]; of the template,
    the events of the input field and the buttons, the texts of the copy
    buttons and the placeholder.

    JavaScript numbers are IEEE-754 binary64 values.  The arithmetic of the
    two colour transforms is modelled bit for bit with the binary64 instance
    of [SpecFloat]; numbers that the program only ever uses as integers
    (results of [parseInt], [Math.round], shifts) are modelled by [jsint].
    Strings are sequences of UTF-16 code units. *)

From Stdlib Require Import ZArith NArith QArith Qround List Bool Lia Lqa.
From Stdlib Require Import Ascii String.
From Stdlib Require Import Floats.SpecFloat.
Import ListNotations.
Open Scope Z_scope.

(* ================================================================== *)
(** * Numbers *)

(** Binary64: 53 bits of precision, infinities at exponent 1024. *)
Definition prec : Z := 53.
Definition emax : Z := 1024.

Definition number := spec_float.

(** An integer as a number (rounded to nearest-even when it needs more than
    53 bits, exact otherwise). *)
Definition of_Z (z : Z) : number := binary_normalize prec emax z 0 false.

(** The decimal literal [n/d]: the binary64 number nearest to the quotient. *)
Definition decimal (n d : Z) : number := SFdiv prec emax (of_Z n) (of_Z d).

Definition fmul : number -> number -> number := SFmul prec emax.
Definition fadd : number -> number -> number := SFadd prec emax.
Definition fsub : number -> number -> number := SFsub prec emax.

Declare Scope num_scope.
Delimit Scope num_scope with num.
Bind Scope num_scope with number.
Infix "*" := fmul : num_scope.
Infix "+" := fadd : num_scope.
Infix "-" := fsub : num_scope.

(** The exact rational value of a finite number (0 for the others). *)
Definition F2Q (x : number) : Q :=
  match x with
  | S754_finite s m e => (inject_Z (cond_Zopp s (Zpos m)) * Qpower 2 e)%Q
  | _ => 0%Q
  end.

Definition Qltb (p q : Q) : bool := negb (Qle_bool q p).

(** [x < y] on numbers: false when either is NaN. *)
Definition num_ltb (x y : number) : bool :=
  match x, y with
  | S754_nan, _ | _, S754_nan => false
  | S754_infinity sx, S754_infinity sy => sx && negb sy
  | S754_infinity sx, _ => sx
  | _, S754_infinity sy => negb sy
  | _, _ => Qltb (F2Q x) (F2Q y)
  end.

Definition is_nan (x : number) : bool :=
  match x with S754_nan => true | _ => false end.
Definition is_pos_zero (x : number) : bool :=
  match x with S754_zero false => true | _ => false end.
Definition is_neg_zero (x : number) : bool :=
  match x with S754_zero true => true | _ => false end.

(** [Math.min(a, b)] and [Math.max(a, b)] (ECMA-262 21.3.2.24/25): NaN if an
    argument is NaN, [-0] counts as smaller than [+0]. *)
Definition Math_min (a b : number) : number :=
  if is_nan a || is_nan b then S754_nan
  else if is_neg_zero b && is_pos_zero a then b
  else if num_ltb b a then b else a.

Definition Math_max (a b : number) : number :=
  if is_nan a || is_nan b then S754_nan
  else if is_pos_zero b && is_neg_zero a then b
  else if num_ltb a b then b else a.

(** Integer-valued numbers: the results of [parseInt] and [Math.round] and
    the operands of [<<].  [JInt z] is the number [z] ([-0] is identified
    with [0]; no operation of the program tells them apart). *)
Inductive jsint : Type :=
| JNaN
| JInf (neg : bool)
| JInt (z : Z).

Definition to_number (i : jsint) : number :=
  match i with
  | JNaN => S754_nan
  | JInf s => S754_infinity s
  | JInt z => of_Z z
  end.

(** Round to the nearest integer, ties towards plus infinity. *)
Definition round_half_up (q : Q) : Z := Qfloor (q + (1 # 2)).

(** [Math.round(x)] (ECMA-262 21.3.2.28). *)
Definition Math_round (x : number) : jsint :=
  match x with
  | S754_nan => JNaN
  | S754_infinity s => JInf s
  | S754_zero _ => JInt 0
  | S754_finite _ _ _ => JInt (round_half_up (F2Q x))
  end.

Definition int_ltb (a b : jsint) : bool :=
  match a, b with
  | JNaN, _ | _, JNaN => false
  | JInf sa, JInf sb => sa && negb sb
  | JInf sa, JInt _ => sa
  | JInt _, JInf sb => negb sb
  | JInt x, JInt y => x <? y
  end.

(** [a <= b] and [a >= b] on integer-valued numbers (false on NaN). *)
Definition int_leb (a b : jsint) : bool :=
  match a, b with
  | JNaN, _ | _, JNaN => false
  | _, _ => negb (int_ltb b a)
  end.
Definition int_geb (a b : jsint) : bool := int_leb b a.

(** [Math.min] and [Math.max] on integer-valued numbers. *)
Definition Math_min_int (a b : jsint) : jsint :=
  match a, b with
  | JNaN, _ | _, JNaN => JNaN
  | _, _ => if int_ltb b a then b else a
  end.

Definition Math_max_int (a b : jsint) : jsint :=
  match a, b with
  | JNaN, _ | _, JNaN => JNaN
  | _, _ => if int_ltb a b then b else a
  end.

(** [ToInt32] (ECMA-262 7.1.6) and the left shift [x << n]. *)
Definition wrap32 (z : Z) : Z := (z + 2 ^ 31) mod 2 ^ 32 - 2 ^ 31.

Definition ToInt32 (i : jsint) : Z :=
  match i with
  | JInt z => wrap32 z
  | _ => 0
  end.

Definition shl32 (x : jsint) (n : Z) : Z :=
  wrap32 (Z.shiftl (ToInt32 x) (Z.land n 31)).

(** [a + b] for an integer [a] and an integer-valued number [b]; the sum is
    exact in binary64 below 2^53. *)
Definition int_add (a : Z) (b : jsint) : jsint :=
  match b with
  | JInt z => JInt (a + z)
  | _ => b
  end.

(** The numeric literals of the two transforms. *)
Definition c_0_299 : number := Eval vm_compute in decimal 299 1000.
Definition c_0_587 : number := Eval vm_compute in decimal 587 1000.
Definition c_0_114 : number := Eval vm_compute in decimal 114 1000.
Definition c_0_168736 : number := Eval vm_compute in decimal 168736 1000000.
Definition c_0_331264 : number := Eval vm_compute in decimal 331264 1000000.
Definition c_0_5 : number := Eval vm_compute in decimal 5 10.
Definition c_0_418688 : number := Eval vm_compute in decimal 418688 1000000.
Definition c_0_081312 : number := Eval vm_compute in decimal 81312 1000000.
Definition c_1_164 : number := Eval vm_compute in decimal 1164 1000.
Definition c_1_596 : number := Eval vm_compute in decimal 1596 1000.
Definition c_0_392 : number := Eval vm_compute in decimal 392 1000.
Definition c_0_813 : number := Eval vm_compute in decimal 813 1000.
Definition c_2_017 : number := Eval vm_compute in decimal 2017 1000.
Definition n16 : number := Eval vm_compute in of_Z 16.
Definition n128 : number := Eval vm_compute in of_Z 128.
Definition n235 : number := Eval vm_compute in of_Z 235.
Definition n240 : number := Eval vm_compute in of_Z 240.

(* ================================================================== *)
(** * Strings *)

(** A string is a list of UTF-16 code units. *)
Definition codeunit := N.
Definition jsstring := list codeunit.

Definition cu (c : ascii) : codeunit := N_of_ascii c.
Definition u (s : string) : jsstring := map cu (list_ascii_of_string s).

Definition in_range (c : codeunit) (r : codeunit * codeunit) : bool :=
  ((fst r <=? c) && (c <=? snd r))%N.
Definition in_ranges (rs : list (codeunit * codeunit)) (c : codeunit) : bool :=
  existsb (in_range c) rs.

Definition is_upper (c : codeunit) : bool := in_range c (65, 90)%N.
Definition is_lower (c : codeunit) : bool := in_range c (97, 122)%N.

(** The other case of an ASCII letter. *)
Definition swap_case (c : codeunit) : codeunit :=
  if is_upper c then (c + 32)%N else if is_lower c then (c - 32)%N else c.

(** [String.prototype.toUpperCase] on ASCII; code units above 127 are kept
    (the strings the program upper-cases are ASCII). *)
Definition toUpperCase (s : jsstring) : jsstring :=
  map (fun c => if is_lower c then (c - 32)%N else c) s.

Definition startsWith (s : jsstring) (c : codeunit) : bool :=
  match s with
  | x :: _ => (x =? c)%N
  | [] => false
  end.

(** [s.slice(n)] for [n >= 0]. *)
Definition slice (n : nat) (s : jsstring) : jsstring := skipn n s.

(** White space and line terminators: [\s] and the characters [parseInt]
    skips. *)
Definition white_space : list (codeunit * codeunit) :=
  [(9, 13); (32, 32); (160, 160); (5760, 5760); (8192, 8202); (8232, 8233);
   (8239, 8239); (8287, 8287); (12288, 12288); (65279, 65279)]%N.
Definition decimal_digit : list (codeunit * codeunit) := [(48, 57)]%N.

Definition is_space (c : codeunit) : bool := in_ranges white_space c.
Definition is_digit (c : codeunit) : bool := in_ranges decimal_digit c.

(** ** [parseInt] *)

(** The value of a digit in a radix up to 36. *)
Definition digit_val (radix : Z) (c : codeunit) : option Z :=
  let v :=
    if in_range c (48, 57)%N then Z.of_N c - 48
    else if in_range c (97, 122)%N then Z.of_N c - 87
    else if in_range c (65, 90)%N then Z.of_N c - 55
    else radix in
  if v <? radix then Some v else None.

(** The value of the longest prefix of digits, and whether it is not empty. *)
Fixpoint parse_digits (radix : Z) (acc : Z) (seen : bool) (s : jsstring)
  : Z * bool :=
  match s with
  | c :: s' =>
      match digit_val radix c with
      | Some d => parse_digits radix (acc * radix + d) true s'
      | None => (acc, seen)
      end
  | [] => (acc, seen)
  end.

Fixpoint skip_spaces (s : jsstring) : jsstring :=
  match s with
  | c :: s' => if is_space c then skip_spaces s' else s
  | [] => []
  end.

Definition strip_0x (s : jsstring) : option jsstring :=
  match s with
  | 48%N :: x :: s' => if ((x =? 120) || (x =? 88))%N then Some s' else None
  | _ => None
  end.

(** [parseInt(s, radix)] (ECMA-262 19.2.5) for the radix 16 and for the call
    with one argument ([radix = None]): leading white space, a sign and, in
    radix 16 or without a radix, a prefix [0x] are skipped, then the longest
    prefix of digits is read; NaN when there is none.  The value is kept
    exact (JavaScript rounds values above 2^53 to binary64, which does not
    change their comparison with a bound below 2^53). *)
Definition parseInt (s : jsstring) (radix : option Z) : jsint :=
  let s := skip_spaces s in
  let '(neg, s) :=
    match s with
    | 45%N :: s' => (true, s')
    | 43%N :: s' => (false, s')
    | _ => (false, s)
    end in
  let '(r, s) :=
    match radix with
    | Some 16 | None =>
        match strip_0x s with
        | Some s' => (16, s')
        | None => (match radix with Some r => r | None => 10 end, s)
        end
    | Some r => (r, s)
    end in
  match parse_digits r 0 false s with
  | (v, true) => JInt (if neg then - v else v)
  | (_, false) => JNaN
  end.

(** ** [Number.prototype.toString(16)] *)

Definition hex_digit (d : Z) : codeunit :=
  if d <? 10 then Z.to_N (48 + d) else Z.to_N (87 + d).

Fixpoint hex_digits (fuel : nat) (n : Z) : jsstring :=
  match fuel with
  | O => []
  | S fuel' =>
      if n <? 16 then [hex_digit n]
      else hex_digits fuel' (n / 16) ++ [hex_digit (n mod 16)]
  end.

Definition toString16 (i : jsint) : jsstring :=
  match i with
  | JNaN => u "NaN"
  | JInf false => u "Infinity"
  | JInf true => u "-Infinity"
  | JInt n =>
      if n <? 0 then cu "-" :: hex_digits (S (Z.to_nat (Z.log2 (- n)))) (- n)
      else hex_digits (S (Z.to_nat (Z.log2 n))) n
  end.

(** ** [Number::toString] in radix 10 *)

(** The conversion that a template literal applies to a number, for
    integer-valued numbers: the decimal digits of the integer (below 10^21,
    where JavaScript changes to the exponent notation). *)
Fixpoint dec_digits (fuel : nat) (n : Z) : jsstring :=
  match fuel with
  | O => []
  | S fuel' =>
      if n <? 10 then [Z.to_N (48 + n)]
      else dec_digits fuel' (n / 10) ++ [Z.to_N (48 + n mod 10)]
  end.

Definition toString10 (i : jsint) : jsstring :=
  match i with
  | JNaN => u "NaN"
  | JInf false => u "Infinity"
  | JInf true => u "-Infinity"
  | JInt n =>
      if n <? 0 then cu "-" :: dec_digits (S (Z.to_nat (Z.log2 (- n)))) (- n)
      else dec_digits (S (Z.to_nat (Z.log2 n))) n
  end.

(* ================================================================== *)
(** * Regular expressions *)

(** The fragment of the ECMAScript pattern language the program uses, with a
    backtracking matcher in the style of ECMA-262 22.2.2: a matcher takes
    the current state and a continuation and returns the first successful
    match in priority order. *)
Inductive regex : Type :=
| Chr (c : codeunit)
| Class (rs : list (codeunit * codeunit))
| Seq (r1 r2 : regex)
| Repeat (min : nat) (max : option nat) (r : regex)
| Group (i : nat) (r : regex)
| Bol
| Eol.

Definition Opt := Repeat 0 (Some 1%nat).
Definition Star := Repeat 0 None.
Definition Plus := Repeat 1 None.
Definition Exactly (n : nat) := Repeat n (Some n).

Record mstate : Type := {
  pos : nat;
  rest : jsstring;
  caps : list (nat * jsstring)
}.

Definition cont := mstate -> option mstate.

(** Membership in a class.  With the flag [i] (and without [u]) a code
    unit also matches when its other case is in the class; the classes of
    the program are ASCII, and canonicalization never maps a code unit above
    127 to an ASCII one. *)
Definition class_matches (ic : bool) (rs : list (codeunit * codeunit))
  (c : codeunit) : bool :=
  in_ranges rs c || (ic && in_ranges rs (swap_case c)).

Definition step_char (p : codeunit -> bool) (k : cont) (st : mstate)
  : option mstate :=
  match rest st with
  | c :: s' =>
      if p c then k {| pos := S (pos st); rest := s'; caps := caps st |}
      else None
  | [] => None
  end.

Definition max_is_zero (mx : option nat) : bool :=
  match mx with Some O => true | _ => false end.

(** RepeatMatcher for a greedy quantifier [{min,max}] ([max = None] is
    unbounded): once the minimum is reached an iteration that consumes
    nothing is rejected, so [min] plus the length of the input bounds the
    number of iterations, which the fuel counts.  The patterns of the
    program have no group inside a quantifier. *)
Fixpoint repeat_matcher (m : cont -> cont) (fuel mn : nat) (mx : option nat)
  (k : cont) (x : mstate) {struct fuel} : option mstate :=
  match fuel with
  | O => None
  | S fuel' =>
      if max_is_zero mx then k x
      else
        let d := fun y =>
          if (mn =? 0)%nat && (pos y =? pos x)%nat then None
          else repeat_matcher m fuel' (Nat.pred mn) (option_map Nat.pred mx) k y in
        if (mn =? 0)%nat then
          match m d x with
          | Some z => Some z
          | None => k x
          end
        else m d x
  end.

Fixpoint rmatch (ic : bool) (re : regex) (k : cont) (st : mstate)
  : option mstate :=
  match re with
  | Chr c => step_char (fun x => class_matches ic [(c, c)] x) k st
  | Class rs => step_char (class_matches ic rs) k st
  | Seq r1 r2 => rmatch ic r1 (rmatch ic r2 k) st
  | Repeat mn mx r =>
      repeat_matcher (rmatch ic r) (S (mn + List.length (rest st))) mn mx k st
  | Group i r =>
      rmatch ic r
        (fun y => k {| pos := pos y; rest := rest y;
                       caps := (i, firstn (pos y - pos st) (rest st)) :: caps y |})
        st
  | Bol => if (pos st =? 0)%nat then k st else None
  | Eol => match rest st with [] => k st | _ :: _ => None end
  end.

(** [re.exec(s)] for a pattern without the [g] and [y] flags: the match at
    the leftmost position where there is one. *)
Fixpoint search (ic : bool) (re : regex) (i : nat) (s : jsstring)
  : option mstate :=
  match rmatch ic re Some {| pos := i; rest := s; caps := [] |} with
  | Some m => Some m
  | None =>
      match s with
      | _ :: s' => search ic re (S i) s'
      | [] => None
      end
  end.

Definition exec (ic : bool) (re : regex) (s : jsstring) : option mstate :=
  search ic re 0 s.

Definition test (ic : bool) (re : regex) (s : jsstring) : bool :=
  match exec ic re s with Some _ => true | None => false end.

(** [result[i]] converted to a string, as [parseInt] does with its
    argument. *)
Definition result_str (m : mstate) (i : nat) : jsstring :=
  match find (fun c => (fst c =? i)%nat) (caps m) with
  | Some (_, s) => s
  | None => u "undefined"
  end.

(* ================================================================== *)
(** * The codec *)

Record RGB : Type := { r : jsint; g : jsint; b : jsint }.
Record YCbCr : Type := { y : jsint; cb : jsint; cr : jsint }.

(** [hexToRgb]:
    [const result = /^#?([a-f\d]{2})([a-f\d]{2})([a-f\d]{2})$/i.exec(hex)]
    [return result ? { r: parseInt(result[1], 16), g: parseInt(result[2], 16),
                       b: parseInt(result[3], 16) } : null] *)
Definition hex_pair : regex := Exactly 2 (Class [(97, 102); (48, 57)]%N).
Definition re_hexToRgb : regex :=
  Seq Bol (Seq (Opt (Chr (cu "#")))
    (Seq (Group 1 hex_pair) (Seq (Group 2 hex_pair) (Seq (Group 3 hex_pair) Eol)))).

Definition hexToRgb (hex : jsstring) : option RGB :=
  match exec true re_hexToRgb hex with
  | Some result =>
      Some {| r := parseInt (result_str result 1) (Some 16);
              g := parseInt (result_str result 2) (Some 16);
              b := parseInt (result_str result 3) (Some 16) |}
  | None => None
  end.

(** [rgbToHex]:
    [return "#" + ((1 << 24) + (r << 16) + (g << 8) + b).toString(16).slice(1)]
    The first three summands are 32-bit integers, so their sum is exact. *)
Definition rgbToHex (r g b : jsint) : jsstring :=
  cu "#" ::
  slice 1 (toString16 (int_add (shl32 (JInt 1) 24 + shl32 r 16 + shl32 g 8) b)).

(** [rgbToYcbcr], RGB to YCbCr, ITU-R BT.601:
    [const y = 0.299 * r + 0.587 * g + 0.114 * b]
    [const cb = 128 - 0.168736 * r - 0.331264 * g + 0.5 * b]
    [const cr = 128 + 0.5 * r - 0.418688 * g - 0.081312 * b]
    [return { y: Math.round(Math.max(16, Math.min(235, y))),
              cb: Math.round(Math.max(16, Math.min(240, cb))),
              cr: Math.round(Math.max(16, Math.min(240, cr))) }]
    The sums associate to the left; every operation rounds to binary64. *)
Definition rgbToYcbcr (r g b : jsint) : YCbCr :=
  let r := to_number r in
  let g := to_number g in
  let b := to_number b in
  let y := (c_0_299 * r + c_0_587 * g + c_0_114 * b)%num in
  let cb := (n128 - c_0_168736 * r - c_0_331264 * g + c_0_5 * b)%num in
  let cr := (n128 + c_0_5 * r - c_0_418688 * g - c_0_081312 * b)%num in
  {| y := Math_round (Math_max n16 (Math_min n235 y));
     cb := Math_round (Math_max n16 (Math_min n240 cb));
     cr := Math_round (Math_max n16 (Math_min n240 cr)) |}.

(** [ycbcrToRgb], YCbCr to RGB, ITU-R BT.601:
    [const yAdj = y - 16], [const cbAdj = cb - 128], [const crAdj = cr - 128]
    [const r = 1.164 * yAdj + 1.596 * crAdj]
    [const g = 1.164 * yAdj - 0.392 * cbAdj - 0.813 * crAdj]
    [const b = 1.164 * yAdj + 2.017 * cbAdj]
    [return { r: Math.max(0, Math.min(255, Math.round(r))), ... }] *)
Definition ycbcrToRgb (y cb cr : jsint) : RGB :=
  let yAdj := (to_number y - n16)%num in
  let cbAdj := (to_number cb - n128)%num in
  let crAdj := (to_number cr - n128)%num in
  let r := (c_1_164 * yAdj + c_1_596 * crAdj)%num in
  let g := (c_1_164 * yAdj - c_0_392 * cbAdj - c_0_813 * crAdj)%num in
  let b := (c_1_164 * yAdj + c_2_017 * cbAdj)%num in
  {| r := Math_max_int (JInt 0) (Math_min_int (JInt 255) (Math_round r));
     g := Math_max_int (JInt 0) (Math_min_int (JInt 255) (Math_round g));
     b := Math_max_int (JInt 0) (Math_min_int (JInt 255) (Math_round b)) |}.

(* ================================================================== *)
(** * The state of the component *)

(** The three refs of the component: [colorInput = ref('')],
    [inputType = ref('hex')], [currentColor = ref('#3B82F6')].  The template
    assigns only ['hex'], ['rgb'] and ['ycbcr'] to [inputType]. *)
Inductive Format : Type := FmtHex | FmtRgb | FmtYcbcr.

Record State : Type := {
  colorInput : jsstring;
  inputType : Format;
  currentColor : jsstring
}.

Definition initial : State :=
  {| colorInput := []; inputType := FmtHex; currentColor := u "#3B82F6" |}.

Definition set_colorInput (st : State) (s : jsstring) : State :=
  {| colorInput := s; inputType := inputType st; currentColor := currentColor st |}.
Definition set_inputType (st : State) (f : Format) : State :=
  {| colorInput := colorInput st; inputType := f; currentColor := currentColor st |}.
Definition set_currentColor (st : State) (c : jsstring) : State :=
  {| colorInput := colorInput st; inputType := inputType st; currentColor := c |}.

Record ColorInfo : Type := {
  info_hex : jsstring;
  info_rgb : RGB;
  info_ycbcr : YCbCr
}.

(** The computed property [colorInfo] ([None] is [null]):
    [if (!currentColor.value) return null]
    [const rgb = hexToRgb(currentColor.value)], [if (!rgb) return null]
    [return { hex: currentColor.value.toUpperCase(), rgb: rgb,
              ycbcr: rgbToYcbcr(rgb.r, rgb.g, rgb.b) }] *)
Definition colorInfo (st : State) : option ColorInfo :=
  match currentColor st with
  | [] => None
  | _ :: _ =>
      match hexToRgb (currentColor st) with
      | None => None
      | Some rgb =>
          Some {| info_hex := toUpperCase (currentColor st);
                  info_rgb := rgb;
                  info_ycbcr := rgbToYcbcr (r rgb) (g rgb) (b rgb) |}
      end
  end.

(** [/^#?[0-9A-Fa-f]{6}$/] *)
Definition re_hex_input : regex :=
  Seq Bol (Seq (Opt (Chr (cu "#")))
    (Seq (Exactly 6 (Class [(48, 57); (65, 70); (97, 102)]%N)) Eol)).

(** [/(\d+),\s*(\d+),\s*(\d+)/] *)
Definition re_triple : regex :=
  Seq (Group 1 (Plus (Class decimal_digit)))
    (Seq (Chr (cu ","))
      (Seq (Star (Class white_space))
        (Seq (Group 2 (Plus (Class decimal_digit)))
          (Seq (Chr (cu ","))
            (Seq (Star (Class white_space))
              (Group 3 (Plus (Class decimal_digit)))))))).

(** [validateAndConvertColor]: the state after the call, together with the
    final value of its local variable [rgb] ([None] is [null]).  The function
    returns at once on an empty [colorInput]; each case of the [switch]
    assigns [currentColor] at most once, together with [rgb]. *)
Definition validateAndConvertColor_run (st : State) : State * option RGB :=
  match colorInput st with
  | [] => (st, None)
  | _ :: _ =>
      match inputType st with
      | FmtHex =>
          if test false re_hex_input (colorInput st) then
            let hex :=
              if startsWith (colorInput st) (cu "#") then colorInput st
              else cu "#" :: colorInput st in
            match hexToRgb hex with
            | Some rgb => (set_currentColor st hex, Some rgb)
            | None => (st, None)
            end
          else (st, None)
      | FmtRgb =>
          match exec false re_triple (colorInput st) with
          | Some rgbMatch =>
              let r := parseInt (result_str rgbMatch 1) None in
              let g := parseInt (result_str rgbMatch 2) None in
              let b := parseInt (result_str rgbMatch 3) None in
              if int_geb r (JInt 0) && int_leb r (JInt 255) &&
                 int_geb g (JInt 0) && int_leb g (JInt 255) &&
                 int_geb b (JInt 0) && int_leb b (JInt 255)
              then (set_currentColor st (rgbToHex r g b),
                    Some {| r := r; g := g; b := b |})
              else (st, None)
          | None => (st, None)
          end
      | FmtYcbcr =>
          match exec false re_triple (colorInput st) with
          | Some ycbcrMatch =>
              let y := parseInt (result_str ycbcrMatch 1) None in
              let cb := parseInt (result_str ycbcrMatch 2) None in
              let cr := parseInt (result_str ycbcrMatch 3) None in
              if int_geb y (JInt 16) && int_leb y (JInt 235) &&
                 int_geb cb (JInt 16) && int_leb cb (JInt 240) &&
                 int_geb cr (JInt 16) && int_leb cr (JInt 240)
              then
                let rgb := ycbcrToRgb y cb cr in
                (set_currentColor st (rgbToHex (r rgb) (g rgb) (b rgb)), Some rgb)
              else (st, None)
          | None => (st, None)
          end
      end
  end.

Definition validateAndConvertColor (st : State) : State :=
  fst (validateAndConvertColor_run st).

(** Whether the call accepted the input: [rgb] is not [null] at the end. *)
Definition accepted (st : State) : bool :=
  match snd (validateAndConvertColor_run st) with
  | Some _ => true
  | None => false
  end.

(** The callback of [watch(inputType, ...)]. *)
Definition on_inputType_change (st : State) : State := set_colorInput st [].

Definition Format_eqb (f1 f2 : Format) : bool :=
  match f1, f2 with
  | FmtHex, FmtHex | FmtRgb, FmtRgb | FmtYcbcr, FmtYcbcr => true
  | _, _ => false
  end.

(** The events of the template: typing in the input field ([v-model] stores
    the text, then [@input] runs the validation), the convert button, and a
    format button ([inputType = type]; the watcher runs when the value
    changes). *)
Inductive event : Type :=
| Input (text : jsstring)
| ClickConvert
| SelectFormat (f : Format).

Definition handle (st : State) (ev : event) : State :=
  match ev with
  | Input text => validateAndConvertColor (set_colorInput st text)
  | ClickConvert => validateAndConvertColor st
  | SelectFormat f =>
      if Format_eqb f (inputType st) then st
      else on_inputType_change (set_inputType st f)
  end.

Definition run (evs : list event) : State := fold_left handle evs initial.

Inductive reachable : State -> Prop :=
| reach_initial : reachable initial
| reach_step st ev : reachable st -> reachable (handle st ev).

(** The three copy buttons of the template, shown only when [colorInfo] is
    not null ([v-if]), and the text each of them hands to [copyToClipboard],
    which passes it on to [navigator.clipboard.writeText]:
    [colorInfo.hex],
    [`${colorInfo.rgb.r}, ${colorInfo.rgb.g}, ${colorInfo.rgb.b}`] and
    [`${colorInfo.ycbcr.y}, ${colorInfo.ycbcr.cb}, ${colorInfo.ycbcr.cr}`]. *)
Inductive copy_button : Type := CopyHex | CopyRgb | CopyYcbcr.

Definition triple_text (a b c : jsint) : jsstring :=
  toString10 a ++ u ", " ++ toString10 b ++ u ", " ++ toString10 c.

Definition copied_text (st : State) (bt : copy_button) : option jsstring :=
  match colorInfo st with
  | None => None
  | Some info =>
      Some match bt with
           | CopyHex => info_hex info
           | CopyRgb =>
               triple_text (r (info_rgb info)) (g (info_rgb info)) (b (info_rgb info))
           | CopyYcbcr =>
               triple_text (y (info_ycbcr info)) (cb (info_ycbcr info))
                 (cr (info_ycbcr info))
           end
  end.

(** The placeholder of the input field:
    [inputType === 'hex' ? '#3B82F6' : inputType === 'rgb' ? '59, 130, 246' :
     '120, 128, 150']. *)
Definition placeholder (f : Format) : jsstring :=
  match f with
  | FmtHex => u "#3B82F6"
  | FmtRgb => u "59, 130, 246"
  | FmtYcbcr => u "120, 128, 150"
  end.

(* ================================================================== *)
(** * Notions of the specification *)

Definition is_finite (x : number) : bool :=
  match x with
  | S754_zero _ | S754_finite _ _ _ => true
  | _ => false
  end.

(** A finite number with a mantissa below 2^53 and an exponent in
    [lo, hi], or a zero. *)
Definition finite_in (lo hi : Z) (x : number) : Prop :=
  match x with
  | S754_zero _ => True
  | S754_finite _ m e => Zpos m < 2 ^ 53 /\ lo <= e <= hi
  | _ => False
  end.

(** The intervals that follow the exponents through a chain of [n] sums. *)
Definition fin (n : nat) (x : number) : Prop :=
  finite_in (-160 - 52 * Z.of_nat n) (10 + 2 * Z.of_nat n) x.

Definition clampZ (lo hi k : Z) : Z := Z.max lo (Z.min hi k).

(** [k] is the integer nearest to [q], the upper one when [q] is half way
    between two integers. *)
Definition nearest_half_up (q : Q) (k : Z) : Prop :=
  (inject_Z k - (1 # 2) <= q /\ q < inject_Z k + (1 # 2))%Q.

(** [k] is an integer nearest to [q]. *)
Definition nearest (q : Q) (k : Z) : Prop :=
  (inject_Z k - (1 # 2) <= q /\ q <= inject_Z k + (1 # 2))%Q.

Definition rgb_of (r g b : Z) : RGB := {| r := JInt r; g := JInt g; b := JInt b |}.
Definition ycbcr_of (y cb cr : Z) : YCbCr := {| y := JInt y; cb := JInt cb; cr := JInt cr |}.

(** The three sums of the forward transform, as the specification writes
    them, evaluated in binary64 from left to right. *)
Definition y_sum (r g b : Z) : number :=
  (c_0_299 * of_Z r + c_0_587 * of_Z g + c_0_114 * of_Z b)%num.
Definition cb_sum (r g b : Z) : number :=
  (n128 - c_0_168736 * of_Z r - c_0_331264 * of_Z g + c_0_5 * of_Z b)%num.
Definition cr_sum (r g b : Z) : number :=
  (n128 + c_0_5 * of_Z r - c_0_418688 * of_Z g - c_0_081312 * of_Z b)%num.

(** The three sums of the inverse transform, on the offset-adjusted
    components. *)
Definition r_sum (y cb cr : Z) : number :=
  (c_1_164 * (of_Z y - n16) + c_1_596 * (of_Z cr - n128))%num.
Definition g_sum (y cb cr : Z) : number :=
  (c_1_164 * (of_Z y - n16) - c_0_392 * (of_Z cb - n128)
   - c_0_813 * (of_Z cr - n128))%num.
Definition b_sum (y cb cr : Z) : number :=
  (c_1_164 * (of_Z y - n16) + c_2_017 * (of_Z cb - n128))%num.

(** Hexadecimal digits: [[0-9A-Fa-f]], the value of one, a byte in two
    lower-case and in two upper-case digits. *)
Definition is_hex_char (c : codeunit) : bool :=
  in_ranges [(48, 57); (65, 70); (97, 102)]%N c.

Definition hex_value (c : codeunit) : Z :=
  if in_range c (48, 57)%N then Z.of_N c - 48
  else if in_range c (65, 70)%N then Z.of_N c - 55
  else Z.of_N c - 87.

Definition byte_of (c1 c2 : codeunit) : Z := 16 * hex_value c1 + hex_value c2.

Definition lower_hex2 (c : Z) : jsstring :=
  [hex_digit (c / 16); hex_digit (c mod 16)].

Definition upper_hex_digit (d : Z) : codeunit :=
  if d <? 10 then Z.to_N (48 + d) else Z.to_N (55 + d).
Definition upper_hex2 (c : Z) : jsstring :=
  [upper_hex_digit (c / 16); upper_hex_digit (c mod 16)].

(** [s] is six hexadecimal digits [ds] with an optional leading [#]:
    the whole-string pattern [^#?[0-9A-Fa-f]{6}$]. *)
Definition hex_pattern (s ds : jsstring) : Prop :=
  (s = ds \/ s = cu "#" :: ds) /\ List.length ds = 6%nat /\
  forallb is_hex_char ds = true.

(** A non-empty run of decimal digits, a run of white space, and the value
    of a run of digits read in base ten. *)
Definition digits (d : jsstring) : Prop := d <> [] /\ forallb is_digit d = true.
Definition spaces (w : jsstring) : Prop := forallb is_space w = true.

Definition decimal_value (d : jsstring) : Z :=
  fold_left (fun a c => 10 * a + (Z.of_N c - 48)) d 0.

(** Three integers [d1], [d2], [d3] in [s] after the prefix [pre], each
    followed by a comma and optional white space before the next one. *)
Definition triple_at_pos (s pre d1 w1 d2 w2 d3 post : jsstring) : Prop :=
  s = pre ++ d1 ++ cu "," :: w1 ++ d2 ++ cu "," :: w2 ++ d3 ++ post /\
  digits d1 /\ spaces w1 /\ digits d2 /\ spaces w2 /\ digits d3.

Definition no_digit_next (s : jsstring) : Prop :=
  match s with
  | c :: _ => is_digit c = false
  | [] => True
  end.

(** What the scan finds: the occurrence that starts first, with the third
    integer as long as possible. *)
Definition first_triple (s d1 d2 d3 : jsstring) : Prop :=
  exists pre w1 w2 post,
    triple_at_pos s pre d1 w1 d2 w2 d3 post /\ no_digit_next post /\
    forall pre' d1' w1' d2' w2' d3' post',
      triple_at_pos s pre' d1' w1' d2' w2' d3' post' ->
      (List.length pre <= List.length pre')%nat.

(** The declared range of a format, and the colour an accepted triple
    stands for. *)
Definition in_format_range (f : Format) (v1 v2 v3 : Z) : Prop :=
  match f with
  | FmtHex => False
  | FmtRgb => 0 <= v1 <= 255 /\ 0 <= v2 <= 255 /\ 0 <= v3 <= 255
  | FmtYcbcr => 16 <= v1 <= 235 /\ 16 <= v2 <= 240 /\ 16 <= v3 <= 240
  end.

Definition converted (f : Format) (v1 v2 v3 : Z) : RGB :=
  match f with
  | FmtYcbcr => ycbcrToRgb (JInt v1) (JInt v2) (JInt v3)
  | _ => rgb_of v1 v2 v3
  end.

(** The canonical display form of the specification: [#] and each
    channel in two upper-case hexadecimal digits. *)
Definition upper_hex_form (r g b : Z) : jsstring :=
  cu "#" :: upper_hex2 r ++ upper_hex2 g ++ upper_hex2 b.

(** A colour string that [hexToRgb] reads: [#] and six hexadecimal
    digits. *)
Definition valid_color (c : jsstring) : Prop :=
  exists d1 d2 d3 d4 d5 d6,
    c = [cu "#"; d1; d2; d3; d4; d5; d6] /\
    forallb is_hex_char [d1; d2; d3; d4; d5; d6] = true.

(** States used as examples. *)
Definition st_accepted : State :=
  {| colorInput := u "rgb(59, 130,246)"; inputType := FmtRgb;
     currentColor := u "#000000" |}.
Definition st_rejected : State :=
  {| colorInput := u "999,999,999"; inputType := FmtRgb;
     currentColor := u "#3B82F6" |}.
Definition st_accepted_after : State :=
  {| colorInput := u "59, 130, 246"; inputType := FmtRgb;
     currentColor := u "#3b82f6" |}.
Definition st_after_ycbcr : State :=
  handle (handle initial (SelectFormat FmtYcbcr)) (Input (u "122, 198, 83")).

(** Auxiliary functions that describe what the matcher does on the
    patterns of the program. *)
Fixpoint take_class (p : codeunit -> bool) (n : nat) (s : jsstring)
  : option jsstring :=
  match n with
  | O => Some s
  | S n' =>
      match s with
      | c :: s' => if p c then take_class p n' s' else None
      | [] => None
      end
  end.

Fixpoint star_class (p : codeunit -> bool) (k : cont) (n : nat) (s : jsstring)
  (cs : list (nat * jsstring)) : option mstate :=
  match s with
  | c :: s' =>
      if p c then
        match star_class p k (S n) s' cs with
        | Some z => Some z
        | None => k (Build_mstate n s cs)
        end
      else k (Build_mstate n s cs)
  | [] => k (Build_mstate n [] cs)
  end.

(** The part of [re_hexToRgb] after the optional [#]. *)
Definition hex_body : regex :=
  Seq (Group 1 hex_pair) (Seq (Group 2 hex_pair) (Seq (Group 3 hex_pair) Eol)).

(** Six hexadecimal digits read as three bytes. *)
Definition parse_hex6 (s : jsstring) : option RGB :=
  match s with
  | [d1; d2; d3; d4; d5; d6] =>
      if forallb is_hex_char s then
        Some (rgb_of (byte_of d1 d2) (byte_of d3 d4) (byte_of d5 d6))
      else None
  | _ => None
  end.

Fixpoint take_while (p : codeunit -> bool) (s : jsstring) : jsstring :=
  match s with
  | c :: s' => if p c then c :: take_while p s' else []
  | [] => []
  end.

Fixpoint drop_while (p : codeunit -> bool) (s : jsstring) : jsstring :=
  match s with
  | c :: s' => if p c then drop_while p s' else s
  | [] => []
  end.

(** The pattern [re_triple] at the start of a string, written with
    [take_while] and [drop_while], and its leftmost match in a string. *)
Definition digits_then (s : jsstring) : option (jsstring * jsstring) :=
  match take_while is_digit s with
  | [] => None
  | d => Some (d, drop_while is_digit s)
  end.

Definition comma_spaces (s : jsstring) : option jsstring :=
  match s with
  | c :: s' => if (c =? 44)%N then Some (drop_while is_space s') else None
  | [] => None
  end.

Definition triple_at (s : jsstring) : option (jsstring * jsstring * jsstring) :=
  match digits_then s with
  | Some (d1, s1) =>
      match comma_spaces s1 with
      | Some s2 =>
          match digits_then s2 with
          | Some (d2, s3) =>
              match comma_spaces s3 with
              | Some s4 =>
                  match digits_then s4 with
                  | Some (d3, _) => Some (d1, d2, d3)
                  | None => None
                  end
              | None => None
              end
          | None => None
          end
      | None => None
      end
  | None => None
  end.

Fixpoint triple_search (s : jsstring) : option (jsstring * jsstring * jsstring) :=
  match triple_at s with
  | Some t => Some t
  | None =>
      match s with
      | _ :: s' => triple_search s'
      | [] => None
      end
  end.

Definition groups (m : mstate) : jsstring * jsstring * jsstring :=
  (result_str m 1, result_str m 2, result_str m 3).

Fixpoint forall_below (n : nat) (P : Z -> bool) : bool :=
  match n with
  | O => true
  | S n' => P (Z.of_nat n') && forall_below n' P
  end.

Definition jsint_eqb (a b : jsint) : bool :=
  match a, b with
  | JNaN, JNaN => true
  | JInf s1, JInf s2 => Bool.eqb s1 s2
  | JInt x, JInt y => x =? y
  | _, _ => false
  end.

(** The two transforms one after the other. *)
Definition there_and_back (r g b : jsint) : RGB :=
  let c := rgbToYcbcr r g b in ycbcrToRgb (y c) (cb c) (cr c).

(** Decidable comparisons used to check a property on every grey. *)
Definition YCbCr_eqb (a c : YCbCr) : bool :=
  jsint_eqb (y a) (y c) && jsint_eqb (cb a) (cb c) && jsint_eqb (cr a) (cr c).

Definition grey_within (d v : Z) (c : RGB) : bool :=
  match r c with
  | JInt w =>
      jsint_eqb (g c) (JInt w) && jsint_eqb (b c) (JInt w) && (Z.abs (w - v) <=? d)
  | _ => false
  end.

(** More states used as examples. *)
Definition st_typed_rgb : State :=
  {| colorInput := u "12, 200, 7"; inputType := FmtRgb; currentColor := u "#3B82F6" |}.
Definition st_rgb_mode : State := handle initial (SelectFormat FmtRgb).
Definition st_ycbcr_mode : State := handle initial (SelectFormat FmtYcbcr).

(* ================================================================== *)
(** * Checks on the examples of the specification *)

Example ex_hex1 : hexToRgb (u "#3B82F6") = Some (rgb_of 59 130 246).
Proof. vm_compute. reflexivity. Qed.
Example ex_hex2 : hexToRgb (u "3b82f6") = Some (rgb_of 59 130 246).
Proof. vm_compute. reflexivity. Qed.
Example ex_hex3 : hexToRgb (u "3B82F") = None.
Proof. vm_compute. reflexivity. Qed.
Example ex_hex4 : hexToRgb (u "#3B82F6 ") = None.
Proof. vm_compute. reflexivity. Qed.
Example ex_tohex : rgbToHex (JInt 59) (JInt 130) (JInt 246) = u "#3b82f6".
Proof. vm_compute. reflexivity. Qed.
Example ex_black : rgbToYcbcr (JInt 0) (JInt 0) (JInt 0) = ycbcr_of 16 128 128.
Proof. vm_compute. reflexivity. Qed.
Example ex_white : rgbToYcbcr (JInt 255) (JInt 255) (JInt 255) = ycbcr_of 235 128 128.
Proof. vm_compute. reflexivity. Qed.
Example ex_default : rgbToYcbcr (JInt 59) (JInt 130) (JInt 246) = ycbcr_of 122 198 83.
Proof. vm_compute. reflexivity. Qed.
Example ex_back : ycbcrToRgb (JInt 122) (JInt 198) (JInt 83) = rgb_of 52 133 255.
Proof. vm_compute. reflexivity. Qed.
Example ex_rgb_rejected :
  run [SelectFormat FmtRgb; Input (u "999,999,999")] =
  {| colorInput := u "999,999,999"; inputType := FmtRgb; currentColor := u "#3B82F6" |}.
Proof. vm_compute. reflexivity. Qed.
Example ex_rgb_accepted :
  run [SelectFormat FmtRgb; Input (u "rgb(59, 130,246)")] =
  {| colorInput := u "rgb(59, 130,246)"; inputType := FmtRgb; currentColor := u "#3b82f6" |}.
Proof. vm_compute. reflexivity. Qed.
Example ex_ycbcr_rejected :
  accepted {| colorInput := u "15,128,128"; inputType := FmtYcbcr; currentColor := u "#3B82F6" |} = false.
Proof. vm_compute. reflexivity. Qed.
Example ex_ycbcr_accepted :
  run [SelectFormat FmtYcbcr; Input (u "122, 198, 83"); SelectFormat FmtHex] =
  {| colorInput := []; inputType := FmtHex; currentColor := u "#3485ff" |}.
Proof. vm_compute. reflexivity. Qed.

(* ================================================================== *)
(** * Binary64 arithmetic stays finite on small operands *)

Lemma finite_in_weaken lo hi lo' hi' x :
  finite_in lo hi x -> lo' <= lo -> hi <= hi' -> finite_in lo' hi' x.
Proof. destruct x; simpl; intuition lia. Qed.

Lemma digits2_pos_log2 p : Zpos (digits2_pos p) = Z.log2 (Zpos p) + 1.
Proof.
  assert (H : forall q, digits2_pos q = Pos.size q)
    by (induction q; simpl; congruence).
  destruct p; simpl; rewrite ?H; lia.
Qed.

Lemma Zdigits2_gt m : 0 <= m -> m < 2 ^ Zdigits2 m.
Proof.
  destruct m as [|p|p]; unfold Zdigits2; try lia. intros _.
  rewrite digits2_pos_log2. apply Z.log2_spec. lia.
Qed.

Lemma Zdigits2_le m D : 0 <= m < 2 ^ D -> 0 <= D -> Zdigits2 m <= D.
Proof.
  destruct m as [|p|p]; unfold Zdigits2; try lia. intros [_ H] HD.
  rewrite digits2_pos_log2.
  assert (Z.log2 (Zpos p) < D) by (apply Z.log2_lt_pow2; lia). lia.
Qed.

Lemma shr_1_m mrs : 0 <= shr_m mrs -> shr_m (shr_1 mrs) = shr_m mrs / 2.
Proof.
  destruct mrs as [m r s]; simpl. intros Hm.
  destruct m as [|[p|p|]|p]; simpl; try lia; try reflexivity.
  - rewrite <- Z.div2_div. reflexivity.
  - rewrite <- Z.div2_div. reflexivity.
Qed.

Lemma iter_shr_1_m p : forall mrs, 0 <= shr_m mrs ->
  shr_m (iter_pos shr_1 p mrs) = shr_m mrs / 2 ^ Zpos p.
Proof.
  induction p as [p IH|p IH|]; intros mrs Hm; simpl iter_pos.
  - assert (H1 : 0 <= shr_m (shr_1 mrs)) by (rewrite shr_1_m by lia; apply Z.div_pos; lia).
    assert (H2 : 0 <= shr_m (iter_pos shr_1 p (shr_1 mrs)))
      by (rewrite IH by lia; apply Z.div_pos; lia).
    rewrite IH, IH, shr_1_m by lia.
    rewrite !Z.div_div by lia.
    f_equal. rewrite (Pos2Z.inj_xI p).
    replace (2 * Zpos p + 1) with (1 + Zpos p + Zpos p) by lia.
    rewrite !Z.pow_add_r by lia. change (2 ^ 1) with 2. ring.
  - assert (H2 : 0 <= shr_m (iter_pos shr_1 p mrs))
      by (rewrite IH by lia; apply Z.div_pos; lia).
    rewrite IH, IH by lia.
    rewrite !Z.div_div by lia.
    f_equal. rewrite (Pos2Z.inj_xO p).
    replace (2 * Zpos p) with (Zpos p + Zpos p) by lia.
    rewrite Z.pow_add_r by lia. reflexivity.
  - rewrite shr_1_m by lia. reflexivity.
Qed.

Lemma shr_record_of_loc_m m l : shr_m (shr_record_of_loc m l) = m.
Proof. destruct l as [|[]]; reflexivity. Qed.

Lemma shr_fexp_spec m e l :
  0 <= m -> -1074 <= e ->
  let '(mrs, e2) := shr_fexp prec emax m e l in
  0 <= shr_m mrs <= m /\ shr_m mrs < 2 ^ 53 /\
  e <= e2 <= Z.max e (Zdigits2 m + e - 53).
Proof.
  intros Hm He. unfold shr_fexp, shr, fexp, emin, prec, emax.
  pose proof (Zdigits2_gt m Hm) as Hd.
  set (d := Zdigits2 m) in *.
  assert (0 <= d) by (subst d; destruct m; simpl; lia).
  destruct (Z.max (d + e - 53) (3 - 1024 - 53) - e) as [|n|n] eqn:En;
    rewrite ?shr_record_of_loc_m.
  - repeat split; try lia.
    apply Z.lt_le_trans with (1 := Hd). apply Z.pow_le_mono_r; lia.
  - rewrite iter_shr_1_m by (rewrite shr_record_of_loc_m; lia).
    rewrite shr_record_of_loc_m.
    assert (0 < 2 ^ Zpos n) by (apply Z.pow_pos_nonneg; lia).
    repeat split; try lia.
    + apply Z.div_pos; lia.
    + apply Z.div_le_upper_bound; nia.
    + apply Z.div_lt_upper_bound; [lia|].
      rewrite <- Z.pow_add_r by lia.
      apply Z.lt_le_trans with (1 := Hd). apply Z.pow_le_mono_r; lia.
  - repeat split; try lia.
    apply Z.lt_le_trans with (1 := Hd). apply Z.pow_le_mono_r; lia.
Qed.

Lemma round_nearest_even_bounds m l :
  m <= round_nearest_even m l <= m + 1.
Proof. destruct l as [|[]]; simpl; try lia. destruct (Z.even m); lia. Qed.

Lemma binary_round_aux_finite sx mx ex lx D :
  0 <= mx < 2 ^ D -> 0 <= D -> -1074 <= ex ->
  Z.max ex (D + ex - 53) + 1 <= 971 ->
  finite_in ex (Z.max ex (D + ex - 53) + 1) (binary_round_aux prec emax sx mx ex lx).
Proof.
  intros Hm HD He Hov. unfold binary_round_aux.
  pose proof (shr_fexp_spec mx ex lx (proj1 Hm) He) as H1.
  destruct (shr_fexp prec emax mx ex lx) as [mrs1 e1].
  destruct H1 as (Hm1 & Hb1 & He1).
  pose proof (round_nearest_even_bounds (shr_m mrs1) (loc_of_shr_record mrs1)) as Hr.
  set (m1 := round_nearest_even (shr_m mrs1) (loc_of_shr_record mrs1)) in *.
  pose proof (Zdigits2_le mx D Hm HD) as Hdx.
  assert (Hd1 : Zdigits2 m1 <= 54).
  { apply Zdigits2_le; [|lia]. change (2 ^ 54) with (2 * 2 ^ 53). lia. }
  pose proof (shr_fexp_spec m1 e1 loc_Exact) as H2.
  destruct (shr_fexp prec emax m1 e1 loc_Exact) as [mrs2 e2].
  destruct H2 as (Hm2 & Hb2 & He2); try lia.
  destruct (shr_m mrs2) as [|m2|m2] eqn:Em2; cbn [finite_in]; try lia; auto.
  unfold emax, prec.
  destruct (Z.leb_spec e2 (1024 - 53)); cbn [finite_in]; lia.
Qed.

Lemma iter_xO_shift q m : Zpos (Pos.iter xO m q) = Zpos m * 2 ^ Zpos q.
Proof.
  induction q as [|q IH] using Pos.peano_ind.
  - simpl. lia.
  - rewrite Pos.iter_succ, Pos2Z.inj_xO, IH, Pos2Z.inj_succ, Z.pow_succ_r by lia. ring.
Qed.

Lemma binary_round_finite sx mx ex D :
  Zpos mx < 2 ^ D -> 53 <= D -> -1074 <= ex -> D + ex - 52 <= 971 ->
  finite_in (Z.max (ex - 52) (-1074)) (D + ex - 52) (binary_round prec emax sx mx ex).
Proof.
  intros Hm HD He Hov. unfold binary_round, shl_align.
  pose proof (Zdigits2_gt (Zpos mx) ltac:(lia)) as Hd. unfold Zdigits2 in Hd.
  set (d := Zpos (digits2_pos mx)) in *.
  assert (0 < d) by (subst d; lia).
  set (fe := fexp prec emax (d + ex)).
  assert (Hfe : fe = Z.max (d + ex - 53) (-1074)) by reflexivity.
  destruct (fe - ex) as [|q|q] eqn:Eq.
  - eapply finite_in_weaken; [apply (binary_round_aux_finite _ _ _ _ D)|..]; lia.
  - eapply finite_in_weaken; [apply (binary_round_aux_finite _ _ _ _ D)|..]; lia.
  - assert (Hmz : Zpos (Pos.iter xO mx q) < 2 ^ D).
    { rewrite iter_xO_shift.
      apply Z.lt_le_trans with (2 ^ d * 2 ^ Zpos q).
      - apply Z.mul_lt_mono_pos_r; [apply Z.pow_pos_nonneg|]; lia.
      - rewrite <- Z.pow_add_r by lia. apply Z.pow_le_mono_r; lia. }
    eapply finite_in_weaken; [apply (binary_round_aux_finite _ _ _ _ D)|..]; lia.
Qed.

Lemma binary_normalize_finite m e D sz :
  Z.abs m < 2 ^ D -> 53 <= D -> -1074 <= e -> D + e - 52 <= 971 ->
  finite_in (Z.max (e - 52) (-1074)) (D + e - 52) (binary_normalize prec emax m e sz).
Proof.
  intros Hm HD He Hov. destruct m as [|p|p]; simpl; auto;
    apply binary_round_finite; auto.
Qed.

Lemma of_Z_finite z : Z.abs z < 2 ^ 53 -> finite_in (-52) 1 (of_Z z).
Proof.
  intros Hz. apply (binary_normalize_finite z 0 53 false); lia.
Qed.

Lemma fmul_finite l1 h1 l2 h2 x y :
  finite_in l1 h1 x -> finite_in l2 h2 y ->
  -1074 <= l1 + l2 -> h1 + h2 + 54 <= 971 ->
  finite_in (l1 + l2) (h1 + h2 + 54) (fmul x y).
Proof.
  destruct x as [sx| | |sx mx ex], y as [sy| | |sy my ey]; simpl; try tauto.
  intros [Hx Hex] [Hy Hey] Hlo Hhi.
  eapply finite_in_weaken;
    [apply (binary_round_aux_finite _ _ _ _ 106)|..]; try lia.
  rewrite Pos2Z.inj_mul. change (2 ^ 106) with (2 ^ 53 * 2 ^ 53). nia.
Qed.

Lemma shl_align_fst m e ez :
  ez <= e -> Zpos (fst (shl_align m e ez)) = Zpos m * 2 ^ (e - ez).
Proof.
  intros H. unfold shl_align.
  destruct (ez - e) as [|q|q] eqn:Eq; simpl fst; try lia.
  - replace (e - ez) with 0 by lia. lia.
  - rewrite iter_xO_shift. f_equal. f_equal. lia.
Qed.

Lemma aligned_sum_finite sx mx ex sy my ey lo hi (op : Z -> Z -> Z) :
  (forall a b, Z.abs (op a b) <= Z.abs a + Z.abs b) ->
  Zpos mx < 2 ^ 53 -> lo <= ex <= hi -> Zpos my < 2 ^ 53 -> lo <= ey <= hi ->
  -1074 <= lo -> hi + 2 <= 971 ->
  finite_in (Z.max (lo - 52) (-1074)) (hi + 2)
    (binary_normalize prec emax
       (op (cond_Zopp sx (Zpos (fst (shl_align mx ex (Z.min ex ey)))))
           (cond_Zopp sy (Zpos (fst (shl_align my ey (Z.min ex ey))))))
       (Z.min ex ey) false).
Proof.
  intros Hop Hx Hex Hy Hey Hlo Hhi.
  set (ez := Z.min ex ey). set (eM := Z.max ex ey).
  rewrite !shl_align_fst by lia.
  eapply finite_in_weaken;
    [apply (binary_normalize_finite _ _ (54 + eM - ez))|..]; try lia.
  eapply Z.le_lt_trans; [apply Hop|].
  assert (Ha : forall s m e, Zpos m < 2 ^ 53 -> ez <= e <= eM ->
            Z.abs (cond_Zopp s (Zpos m * 2 ^ (e - ez))) < 2 ^ (53 + eM - ez)).
  { intros s m e Hm He.
    assert (0 < 2 ^ (e - ez)) by (apply Z.pow_pos_nonneg; lia).
    assert (0 < Zpos m * 2 ^ (e - ez)) by (apply Z.mul_pos_pos; lia).
    replace (Z.abs _) with (Zpos m * 2 ^ (e - ez))
      by (destruct s; unfold cond_Zopp; lia).
    apply Z.lt_le_trans with (2 ^ 53 * 2 ^ (e - ez)).
    - apply Z.mul_lt_mono_pos_r; lia.
    - rewrite <- Z.pow_add_r by lia. apply Z.pow_le_mono_r; lia. }
  pose proof (Ha sx mx ex Hx ltac:(lia)).
  pose proof (Ha sy my ey Hy ltac:(lia)).
  replace (54 + eM - ez) with (Z.succ (53 + eM - ez)) by lia.
  rewrite Z.pow_succ_r by lia. lia.
Qed.

Lemma fadd_finite lo hi x y :
  finite_in lo hi x -> finite_in lo hi y -> -1074 <= lo -> hi + 2 <= 971 ->
  finite_in (Z.max (lo - 52) (-1074)) (hi + 2) (fadd x y).
Proof.
  intros Hx Hy Hlo Hhi.
  destruct x as [sx| | |sx mx ex], y as [sy| | |sy my ey]; simpl in *; try tauto.
  - destruct sx, sy; simpl; auto.
  - intuition lia.
  - intuition lia.
  - destruct Hx, Hy. apply (aligned_sum_finite sx mx ex sy my ey lo hi Z.add); auto. lia.
Qed.

Lemma fsub_finite lo hi x y :
  finite_in lo hi x -> finite_in lo hi y -> -1074 <= lo -> hi + 2 <= 971 ->
  finite_in (Z.max (lo - 52) (-1074)) (hi + 2) (fsub x y).
Proof.
  intros Hx Hy Hlo Hhi.
  destruct x as [sx| | |sx mx ex], y as [sy| | |sy my ey]; simpl in *; try tauto.
  - destruct sx, sy; simpl; auto.
  - intuition lia.
  - intuition lia.
  - destruct Hx, Hy. apply (aligned_sum_finite sx mx ex sy my ey lo hi Z.sub); auto. lia.
Qed.

(** ** Chains of sums and products *)

Lemma finite_in_is_finite lo hi x : finite_in lo hi x -> is_finite x = true.
Proof. destruct x; simpl; tauto. Qed.

Lemma fin_mono n m x : fin n x -> (n <= m)%nat -> fin m x.
Proof. unfold fin. intros H Hnm. eapply finite_in_weaken; [exact H|..]; lia. Qed.

Lemma fin_add n x y : fin n x -> fin n y -> (n <= 10)%nat -> fin (S n) (x + y)%num.
Proof.
  unfold fin. intros Hx Hy Hn.
  eapply finite_in_weaken; [apply (fadd_finite _ _ x y Hx Hy)|..]; lia.
Qed.

Lemma fin_sub n x y : fin n x -> fin n y -> (n <= 10)%nat -> fin (S n) (x - y)%num.
Proof.
  unfold fin. intros Hx Hy Hn.
  eapply finite_in_weaken; [apply (fsub_finite _ _ x y Hx Hy)|..]; lia.
Qed.

Lemma fin_of_Z z : Z.abs z < 2 ^ 53 -> fin 0 (of_Z z).
Proof.
  intros H. eapply finite_in_weaken; [apply of_Z_finite, H|..]; simpl; lia.
Qed.

(** A literal times an integer, or times a difference of two integers. *)
Lemma fin_mul_literal c x :
  finite_in (-56) (-50) c -> finite_in (-104) 3 x -> fin 0 (c * x)%num.
Proof.
  intros Hc Hx.
  eapply finite_in_weaken; [apply (fmul_finite _ _ _ _ c x Hc Hx)|..]; simpl; lia.
Qed.

Lemma fin_offset z c : Z.abs z < 2 ^ 53 -> Z.abs c < 2 ^ 53 ->
  finite_in (-104) 3 (of_Z z - of_Z c)%num.
Proof.
  intros Hz Hc.
  eapply finite_in_weaken;
    [apply (fsub_finite (-52) 1); try apply of_Z_finite; auto; lia|..]; lia.
Qed.

Lemma fin_int z : Z.abs z < 2 ^ 53 -> finite_in (-104) 3 (of_Z z).
Proof.
  intros H. eapply finite_in_weaken; [apply of_Z_finite, H|..]; lia.
Qed.

Ltac literal := cbv; repeat split; first [reflexivity | discriminate].

Lemma small_abs z lo hi : lo <= z <= hi -> -1000 <= lo -> hi <= 1000 -> Z.abs z < 2 ^ 53.
Proof. intros. change (2 ^ 53) with 9007199254740992. lia. Qed.

Ltac fin_chain :=
  repeat first
    [ apply fin_add; [| |lia]
    | apply fin_sub; [| |lia]
    | apply (fin_mono 0); [|lia]; apply fin_mul_literal; [literal|]
    | apply (fin_mono 0); [|lia]; apply fin_of_Z
    | apply fin_int
    | apply (fin_offset _ 16)
    | apply (fin_offset _ 128)
    | eapply small_abs; [eassumption|lia|lia]
    | apply (small_abs _ 16 16); lia
    | apply (small_abs _ 128 128); lia ].

Lemma y_sum_finite r g b :
  0 <= r <= 255 -> 0 <= g <= 255 -> 0 <= b <= 255 -> is_finite (y_sum r g b) = true.
Proof.
  intros Hr Hg Hb. apply (finite_in_is_finite _ _ _ : fin 2 _ -> _).
  unfold y_sum. fin_chain.
Qed.

Lemma cb_sum_finite r g b :
  0 <= r <= 255 -> 0 <= g <= 255 -> 0 <= b <= 255 -> is_finite (cb_sum r g b) = true.
Proof.
  intros Hr Hg Hb. apply (finite_in_is_finite _ _ _ : fin 3 _ -> _).
  unfold cb_sum. change n128 with (of_Z 128). fin_chain.
Qed.

Lemma cr_sum_finite r g b :
  0 <= r <= 255 -> 0 <= g <= 255 -> 0 <= b <= 255 -> is_finite (cr_sum r g b) = true.
Proof.
  intros Hr Hg Hb. apply (finite_in_is_finite _ _ _ : fin 3 _ -> _).
  unfold cr_sum. change n128 with (of_Z 128). fin_chain.
Qed.

Lemma r_sum_finite y cb cr :
  16 <= y <= 235 -> 16 <= cb <= 240 -> 16 <= cr <= 240 ->
  is_finite (r_sum y cb cr) = true.
Proof.
  intros Hy Hcb Hcr. apply (finite_in_is_finite _ _ _ : fin 1 _ -> _).
  unfold r_sum. change n128 with (of_Z 128). change n16 with (of_Z 16). fin_chain.
Qed.

Lemma g_sum_finite y cb cr :
  16 <= y <= 235 -> 16 <= cb <= 240 -> 16 <= cr <= 240 ->
  is_finite (g_sum y cb cr) = true.
Proof.
  intros Hy Hcb Hcr. apply (finite_in_is_finite _ _ _ : fin 2 _ -> _).
  unfold g_sum. change n128 with (of_Z 128). change n16 with (of_Z 16). fin_chain.
Qed.

Lemma b_sum_finite y cb cr :
  16 <= y <= 235 -> 16 <= cb <= 240 -> 16 <= cr <= 240 ->
  is_finite (b_sum y cb cr) = true.
Proof.
  intros Hy Hcb Hcr. apply (finite_in_is_finite _ _ _ : fin 1 _ -> _).
  unfold b_sum. change n128 with (of_Z 128). change n16 with (of_Z 16). fin_chain.
Qed.

(* ================================================================== *)
(** * Rounding and clamping *)

Lemma Qltb_true p q : Qltb p q = true -> (p < q)%Q.
Proof.
  unfold Qltb. intros H. apply Qnot_le_lt. intros Hle.
  apply Qle_bool_iff in Hle. rewrite Hle in H. discriminate.
Qed.

Lemma Qltb_false p q : Qltb p q = false -> (q <= p)%Q.
Proof.
  unfold Qltb. intros H. apply Qle_bool_iff.
  destruct (Qle_bool q p); [reflexivity|discriminate].
Qed.

Lemma round_half_up_nearest q : nearest_half_up q (round_half_up q).
Proof.
  unfold nearest_half_up, round_half_up.
  pose proof (Qfloor_le (q + (1 # 2))) as H1.
  pose proof (Qlt_floor (q + (1 # 2))) as H2.
  rewrite inject_Z_plus in H2. change (inject_Z 1) with 1%Q in H2.
  split; lra.
Qed.

Lemma nearest_half_up_unique q k1 k2 :
  nearest_half_up q k1 -> nearest_half_up q k2 -> k1 = k2.
Proof.
  unfold nearest_half_up. intros [H1 H2] [H3 H4].
  assert (Ha : (inject_Z k1 < inject_Z k2 + 1)%Q) by lra.
  assert (Hb : (inject_Z k2 < inject_Z k1 + 1)%Q) by lra.
  unfold Qlt in Ha, Hb. simpl in Ha, Hb. lia.
Qed.

Lemma nearest_half_up_le q k c : nearest_half_up q k -> (q <= inject_Z c)%Q -> k <= c.
Proof.
  unfold nearest_half_up. intros [H1 H2] H.
  assert (Ha : (inject_Z k <= inject_Z c + (1 # 2))%Q) by lra.
  unfold Qle in Ha. simpl in Ha. lia.
Qed.

Lemma nearest_half_up_ge q k c : nearest_half_up q k -> (inject_Z c <= q)%Q -> c <= k.
Proof.
  unfold nearest_half_up. intros [H1 H2] H.
  assert (Ha : (inject_Z c < inject_Z k + (1 # 2))%Q) by lra.
  unfold Qlt in Ha. simpl in Ha. lia.
Qed.

Lemma round_half_up_int q c : (q == inject_Z c)%Q -> round_half_up q = c.
Proof.
  intros H. pose proof (round_half_up_nearest q) as Hn.
  apply Z.le_antisymm.
  - apply (nearest_half_up_le q _ c Hn). lra.
  - apply (nearest_half_up_ge q _ c Hn). lra.
Qed.

Lemma Math_round_finite x :
  is_finite x = true -> Math_round x = JInt (round_half_up (F2Q x)).
Proof. destruct x; simpl; try discriminate; reflexivity. Qed.

Lemma num_ltb_finite x y :
  is_finite x = true -> is_finite y = true -> num_ltb x y = Qltb (F2Q x) (F2Q y).
Proof. destruct x, y; simpl; try discriminate; reflexivity. Qed.

Lemma is_nan_finite x : is_finite x = true -> is_nan x = false.
Proof. destruct x; simpl; try discriminate; reflexivity. Qed.

(** Clamping a number between two integer bounds and rounding afterwards
    gives the same integer as rounding first and clamping afterwards. *)
Lemma clamp_then_round lo hi nlo nhi x :
  is_finite x = true -> is_finite nlo = true -> is_finite nhi = true ->
  is_neg_zero nlo = false -> is_pos_zero nhi = false ->
  (F2Q nlo == inject_Z lo)%Q -> (F2Q nhi == inject_Z hi)%Q -> lo <= hi ->
  Math_round (Math_max nlo (Math_min nhi x))
  = JInt (clampZ lo hi (round_half_up (F2Q x))).
Proof.
  intros Hx Hlo Hhi Hzl Hzh Elo Ehi Hle.
  pose proof (round_half_up_nearest (F2Q x)) as Hn.
  set (k := round_half_up (F2Q x)) in *.
  assert (Rlo : Math_round nlo = JInt lo)
    by (rewrite Math_round_finite by assumption; f_equal; apply round_half_up_int, Elo).
  assert (Rhi : Math_round nhi = JInt hi)
    by (rewrite Math_round_finite by assumption; f_equal; apply round_half_up_int, Ehi).
  unfold Math_min. rewrite (is_nan_finite x), (is_nan_finite nhi) by assumption.
  rewrite Hzh, andb_false_r. cbn [orb].
  rewrite (num_ltb_finite x nhi) by assumption.
  unfold clampZ.
  destruct (Qltb (F2Q x) (F2Q nhi)) eqn:E1.
  - apply Qltb_true in E1.
    assert (k <= hi) by (apply (nearest_half_up_le _ _ _ Hn); lra).
    unfold Math_max. rewrite (is_nan_finite x), (is_nan_finite nlo) by assumption.
    rewrite Hzl, andb_false_r. cbn [orb].
    rewrite (num_ltb_finite nlo x) by assumption.
    destruct (Qltb (F2Q nlo) (F2Q x)) eqn:E2.
    + apply Qltb_true in E2.
      assert (lo <= k) by (apply (nearest_half_up_ge _ _ _ Hn); lra).
      rewrite Math_round_finite by assumption. fold k. f_equal. lia.
    + apply Qltb_false in E2.
      assert (k <= lo) by (apply (nearest_half_up_le _ _ _ Hn); lra).
      rewrite Rlo. f_equal. lia.
  - apply Qltb_false in E1.
    assert (hi <= k) by (apply (nearest_half_up_ge _ _ _ Hn); lra).
    unfold Math_max. rewrite (is_nan_finite nhi), (is_nan_finite nlo) by assumption.
    rewrite Hzl, andb_false_r. cbn [orb].
    rewrite (num_ltb_finite nlo nhi) by assumption.
    destruct (Qltb (F2Q nlo) (F2Q nhi)) eqn:E2.
    + rewrite Rhi. f_equal. lia.
    + apply Qltb_false in E2.
      assert (Ha : (inject_Z hi <= inject_Z lo)%Q) by lra.
      unfold Qle in Ha. simpl in Ha.
      rewrite Rlo. f_equal. lia.
Qed.

(** Rounding first and clamping afterwards, on integer-valued numbers. *)
Lemma round_then_clamp lo hi x :
  is_finite x = true ->
  Math_max_int (JInt lo) (Math_min_int (JInt hi) (Math_round x))
  = JInt (clampZ lo hi (round_half_up (F2Q x))).
Proof.
  intros Hx. rewrite Math_round_finite by assumption.
  unfold Math_min_int, Math_max_int, int_ltb, clampZ.
  set (k := round_half_up (F2Q x)).
  destruct (Z.ltb_spec k hi); destruct (Z.ltb_spec lo k); try (f_equal; lia);
    destruct (Z.ltb_spec lo hi); f_equal; lia.
Qed.

Lemma clampZ_range lo hi k : lo <= hi -> lo <= clampZ lo hi k <= hi.
Proof. unfold clampZ. lia. Qed.

Lemma literal_values :
  (F2Q n16 == inject_Z 16)%Q /\ (F2Q n235 == inject_Z 235)%Q /\
  (F2Q n240 == inject_Z 240)%Q /\ (F2Q n128 == inject_Z 128)%Q.
Proof. repeat split; vm_compute; reflexivity. Qed.

Lemma rgbToYcbcr_clamped r g b :
  0 <= r <= 255 -> 0 <= g <= 255 -> 0 <= b <= 255 ->
  rgbToYcbcr (JInt r) (JInt g) (JInt b)
  = ycbcr_of (clampZ 16 235 (round_half_up (F2Q (y_sum r g b))))
             (clampZ 16 240 (round_half_up (F2Q (cb_sum r g b))))
             (clampZ 16 240 (round_half_up (F2Q (cr_sum r g b)))).
Proof.
  intros Hr Hg Hb. destruct literal_values as (E16 & E235 & E240 & _).
  unfold rgbToYcbcr, ycbcr_of. cbn [to_number].
  fold (y_sum r g b) (cb_sum r g b) (cr_sum r g b).
  rewrite (clamp_then_round 16 235), (clamp_then_round 16 240),
    (clamp_then_round 16 240);
    auto using y_sum_finite, cb_sum_finite, cr_sum_finite; lia.
Qed.

Lemma ycbcrToRgb_clamped y cb cr :
  16 <= y <= 235 -> 16 <= cb <= 240 -> 16 <= cr <= 240 ->
  ycbcrToRgb (JInt y) (JInt cb) (JInt cr)
  = rgb_of (clampZ 0 255 (round_half_up (F2Q (r_sum y cb cr))))
           (clampZ 0 255 (round_half_up (F2Q (g_sum y cb cr))))
           (clampZ 0 255 (round_half_up (F2Q (b_sum y cb cr)))).
Proof.
  intros Hy Hcb Hcr. unfold ycbcrToRgb, rgb_of. cbn [to_number].
  fold (r_sum y cb cr) (g_sum y cb cr) (b_sum y cb cr).
  rewrite !round_then_clamp; auto using r_sum_finite, g_sum_finite, b_sum_finite.
Qed.

(* ================================================================== *)
(** * Hexadecimal strings *)

Lemma forall_below_spec n P :
  forall_below n P = true -> forall z, 0 <= z < Z.of_nat n -> P z = true.
Proof.
  induction n as [|n IH]; intros H z Hz; [lia|].
  cbn [forall_below] in H. apply andb_prop in H. destruct H as [H1 H2].
  destruct (Z.eq_dec z (Z.of_nat n)) as [->|Hne]; [exact H1|].
  apply IH; [exact H2|lia].
Qed.

Lemma jsint_eqb_eq a b : jsint_eqb a b = true -> a = b.
Proof.
  destruct a as [|[]|x], b as [|[]|z]; simpl; try discriminate; auto.
  intros H. apply Z.eqb_eq in H. congruence.
Qed.

Lemma hex_digits_small f n : 0 <= n < 16 -> hex_digits (S f) n = [hex_digit n].
Proof. intros H. cbn [hex_digits]. destruct (Z.ltb_spec n 16); [reflexivity|lia]. Qed.

Lemma hex_digits_byte f m c :
  1 <= m -> 0 <= c < 256 ->
  hex_digits (S (S f)) (256 * m + c) = hex_digits f m ++ lower_hex2 c.
Proof.
  intros Hm Hc. cbn [hex_digits].
  destruct (Z.ltb_spec (256 * m + c) 16); [lia|].
  destruct (Z.ltb_spec ((256 * m + c) / 16) 16);
    [Z.to_euclidean_division_equations; lia|].
  unfold lower_hex2. rewrite <- app_assoc. cbn [app].
  replace ((256 * m + c) / 16 / 16) with m
    by (Z.to_euclidean_division_equations; lia).
  replace ((256 * m + c) / 16 mod 16) with (c / 16)
    by (Z.to_euclidean_division_equations; lia).
  replace ((256 * m + c) mod 16) with (c mod 16)
    by (Z.to_euclidean_division_equations; lia).
  reflexivity.
Qed.

Lemma shl32_byte c n :
  0 <= c <= 255 -> 0 <= n <= 16 -> shl32 (JInt c) n = c * 2 ^ n.
Proof.
  intros Hc Hn. unfold shl32, ToInt32, wrap32.
  replace (Z.land n 31) with n.
  2:{ assert (Hb : forall_below 17 (fun n => Z.land n 31 =? n) = true) by reflexivity.
      symmetry. apply Z.eqb_eq. apply (forall_below_spec _ _ Hb). simpl. lia. }
  rewrite (Z.mod_small (c + 2 ^ 31)) by (change (2 ^ 31) with 2147483648;
    change (2 ^ 32) with 4294967296; lia).
  replace (c + 2 ^ 31 - 2 ^ 31) with c by lia.
  rewrite Z.shiftl_mul_pow2 by lia.
  assert (0 < 2 ^ n <= 2 ^ 16)
    by (split; [apply Z.pow_pos_nonneg; lia|apply Z.pow_le_mono_r; lia]).
  change (2 ^ 16) with 65536 in *.
  rewrite Z.mod_small by (change (2 ^ 31) with 2147483648;
    change (2 ^ 32) with 4294967296; nia).
  lia.
Qed.

(** The string [rgbToHex] builds from three bytes. *)
Lemma rgbToHex_bytes r g b :
  0 <= r <= 255 -> 0 <= g <= 255 -> 0 <= b <= 255 ->
  rgbToHex (JInt r) (JInt g) (JInt b)
  = cu "#" :: lower_hex2 r ++ lower_hex2 g ++ lower_hex2 b.
Proof.
  intros Hr Hg Hb. unfold rgbToHex.
  rewrite (shl32_byte r 16), (shl32_byte g 8) by lia.
  change (shl32 (JInt 1) 24) with 16777216.
  change (2 ^ 16) with 65536. change (2 ^ 8) with 256.
  cbn [int_add toString16].
  set (n := 16777216 + r * 65536 + g * 256 + b).
  destruct (Z.ltb_spec n 0); [lia|].
  assert (Hlog : Z.log2 n = 24).
  { apply Z.log2_unique; [lia|]. change (2 ^ 24) with 16777216.
    change (2 ^ (24 + 1)) with 33554432. lia. }
  rewrite Hlog. change (S (Z.to_nat 24)) with 25%nat.
  replace n with (256 * (256 * (256 * 1 + r) + g) + b) by lia.
  rewrite !hex_digits_byte by lia.
  rewrite hex_digits_small by lia. reflexivity.
Qed.

(* ================================================================== *)
(** * The matcher on the patterns of the program *)

Lemma mstate_eta x : Build_mstate (pos x) (rest x) (caps x) = x.
Proof. destruct x; reflexivity. Qed.

Lemma repeat_exact p k : forall n fuel x, (n < fuel)%nat ->
  repeat_matcher (step_char p) fuel n (Some n) k x
  = match take_class p n (rest x) with
    | Some s' => k (Build_mstate (n + pos x) s' (caps x))
    | None => None
    end.
Proof.
  induction n as [|n IH]; intros fuel x Hf;
    (destruct fuel as [|f]; [lia|]); cbn [repeat_matcher max_is_zero take_class].
  - f_equal. symmetry. apply mstate_eta.
  - cbn [Nat.eqb andb Nat.pred option_map]. unfold step_char at 1.
    destruct (rest x) as [|c s']; [reflexivity|].
    destruct (p c); [|reflexivity].
    rewrite IH by lia. cbn [rest pos caps].
    rewrite Nat.add_succ_r. reflexivity.
Qed.

Lemma rmatch_exactly ic rs n k x :
  rmatch ic (Exactly n (Class rs)) k x
  = match take_class (class_matches ic rs) n (rest x) with
    | Some s' => k (Build_mstate (n + pos x) s' (caps x))
    | None => None
    end.
Proof. unfold Exactly. cbn [rmatch]. apply repeat_exact. lia. Qed.

Lemma rmatch_opt_chr ic c k x :
  rmatch ic (Opt (Chr c)) k x
  = match rest x with
    | a :: s' =>
        if class_matches ic [(c, c)] a then
          match k (Build_mstate (S (pos x)) s' (caps x)) with
          | Some z => Some z
          | None => k x
          end
        else k x
    | [] => k x
    end.
Proof.
  unfold Opt. cbn [rmatch repeat_matcher max_is_zero Nat.eqb andb].
  unfold step_char at 1.
  destruct (rest x) as [|a s'] eqn:E; [reflexivity|].
  destruct (class_matches ic [(c, c)] a); [|reflexivity].
  cbn [pos]. replace (S (pos x) =? pos x)%nat with false
    by (symmetry; apply Nat.eqb_neq; lia).
  cbn [Nat.add List.length repeat_matcher option_map Nat.pred max_is_zero].
  reflexivity.
Qed.

Lemma repeat_star p k : forall s fuel n cs, (List.length s < fuel)%nat ->
  repeat_matcher (step_char p) fuel 0 None k (Build_mstate n s cs)
  = star_class p k n s cs.
Proof.
  induction s as [|c s' IH]; intros fuel n cs Hf;
    (destruct fuel as [|f]; [simpl in Hf; lia|]);
    cbn [repeat_matcher max_is_zero Nat.eqb andb star_class];
    unfold step_char at 1; cbn [rest pos caps].
  - reflexivity.
  - destruct (p c); [|reflexivity].
    replace (S n =? n)%nat with false by (symmetry; apply Nat.eqb_neq; lia).
    cbn [Nat.pred option_map]. rewrite IH by (simpl in Hf; lia). reflexivity.
Qed.

Lemma rmatch_star ic rs k n s cs :
  rmatch ic (Star (Class rs)) k (Build_mstate n s cs)
  = star_class (class_matches ic rs) k n s cs.
Proof. unfold Star. cbn [rmatch]. apply repeat_star. cbn [rest]. lia. Qed.

Lemma rmatch_plus ic rs k n s cs :
  rmatch ic (Plus (Class rs)) k (Build_mstate n s cs)
  = match s with
    | c :: s' =>
        if class_matches ic rs c then
          star_class (class_matches ic rs) k (S n) s' cs
        else None
    | [] => None
    end.
Proof.
  unfold Plus. cbn [rmatch repeat_matcher max_is_zero Nat.eqb andb].
  unfold step_char at 1. cbn [rest pos caps].
  destruct s as [|c s']; [reflexivity|].
  destruct (class_matches ic rs c); [|reflexivity].
  cbn [Nat.pred option_map]. apply repeat_star. simpl. lia.
Qed.

(** A pattern that begins with [^] can only match at position 0. *)
Lemma search_bol ic re s :
  exec ic (Seq Bol re) s = rmatch ic re Some (Build_mstate 0 s []).
Proof.
  assert (H : forall t i, search ic (Seq Bol re) (S i) t = None)
    by (induction t as [|a t IH]; intros i; cbn; [|rewrite IH]; reflexivity).
  unfold exec. destruct s as [|a s]; cbn [search rmatch pos Nat.eqb];
    destruct (rmatch ic re Some _); try reflexivity. apply H.
Qed.

(** ** Character classes *)

Lemma ascii_cases (P : codeunit -> bool) :
  forall_below 128 (fun z => P (Z.to_N z)) = true ->
  (forall c, (128 <= c)%N -> P c = true) ->
  forall c, P c = true.
Proof.
  intros Hs Hl c. destruct (N.le_gt_cases 128 c) as [H|H]; [auto|].
  pose proof (forall_below_spec _ _ Hs (Z.of_N c) ltac:(simpl; lia)) as Hc.
  cbv beta in Hc. rewrite N2Z.id in Hc. exact Hc.
Qed.

Ltac above_ascii c :=
  repeat match goal with
    | |- context [(c <=? ?k)%N] =>
        rewrite (proj2 (N.leb_gt c k)) by lia
    | |- context [(?k <=? c)%N] =>
        rewrite (proj2 (N.leb_le k c)) by lia
    | |- context [(c =? ?k)%N] =>
        rewrite (proj2 (N.eqb_neq c k)) by lia
    | _ => progress cbn [andb orb negb Bool.eqb existsb fst snd]
    | _ => rewrite andb_false_r
    | _ => rewrite orb_false_r
    end.

Ltac by_ascii :=
  let c := fresh "c" in
  intros c; apply Bool.eqb_prop; revert c;
  apply ascii_cases;
  [ vm_compute; reflexivity
  | intros c Hc;
    unfold class_matches, is_hex_char, is_space, is_digit, in_ranges, swap_case,
      is_upper, is_lower, in_range, white_space, decimal_digit;
    above_ascii c; try reflexivity ].

Lemma class_hex_ci :
  forall c, class_matches true [(97, 102); (48, 57)]%N c = is_hex_char c.
Proof. by_ascii. Qed.

Lemma class_hex_cs c :
  class_matches false [(48, 57); (65, 70); (97, 102)]%N c = is_hex_char c.
Proof. unfold class_matches, is_hex_char. cbn [andb]. apply orb_false_r. Qed.

Lemma class_sharp ic :
  forall c, class_matches ic [(cu "#", cu "#")] c = (c =? 35)%N.
Proof. change (cu "#") with 35%N. destruct ic; by_ascii. Qed.

Lemma class_comma :
  forall c, class_matches false [(cu ",", cu ",")] c = (c =? 44)%N.
Proof. change (cu ",") with 44%N. by_ascii. Qed.

Lemma digit_not_space : forall c, is_digit c && is_space c = false.
Proof. by_ascii. Qed.

Lemma hex_char_ascii : forall d, is_hex_char d = true -> (d < 128)%N.
Proof.
  intros d H. destruct (N.lt_ge_cases d 128) as [|Hge]; [assumption|].
  exfalso. revert H.
  unfold is_hex_char, in_ranges, in_range. above_ascii d. discriminate.
Qed.

Lemma parseInt_hex_pair d1 d2 :
  is_hex_char d1 = true -> is_hex_char d2 = true ->
  parseInt [d1; d2] (Some 16) = JInt (byte_of d1 d2).
Proof.
  intros H1 H2.
  assert (Hb : forall_below 128 (fun a => forall_below 128 (fun b =>
            negb (is_hex_char (Z.to_N a) && is_hex_char (Z.to_N b)) ||
            jsint_eqb (parseInt [Z.to_N a; Z.to_N b] (Some 16))
                      (JInt (byte_of (Z.to_N a) (Z.to_N b))))) = true).
  { vm_compute. reflexivity. }
  pose proof (hex_char_ascii d1 H1). pose proof (hex_char_ascii d2 H2).
  pose proof (forall_below_spec _ _ Hb (Z.of_N d1) ltac:(simpl; lia)) as Ha.
  cbv beta in Ha.
  pose proof (forall_below_spec _ _ Ha (Z.of_N d2) ltac:(simpl; lia)) as Hc.
  cbv beta in Hc. rewrite !N2Z.id, H1, H2 in Hc.
  apply jsint_eqb_eq. exact Hc.
Qed.

(** ** The hexadecimal patterns *)

Ltac hex_step :=
  first
    [ rewrite rmatch_exactly
    | rewrite class_hex_ci
    | progress cbn [take_class rest pos caps forallb andb rmatch]
    | match goal with
      | |- context [if is_hex_char ?d then _ else _] =>
          destruct (is_hex_char d) eqn:?
      end ].

Lemma hex_body_spec n s :
  match rmatch true hex_body Some (Build_mstate n s []) with
  | Some m =>
      Some {| r := parseInt (result_str m 1) (Some 16);
              g := parseInt (result_str m 2) (Some 16);
              b := parseInt (result_str m 3) (Some 16) |}
  | None => None
  end = parse_hex6 s.
Proof.
  unfold hex_body, hex_pair, parse_hex6.
  destruct s as [|d1 [|d2 [|d3 [|d4 [|d5 [|d6 [|d7 s7]]]]]]];
    repeat hex_step; try reflexivity.
  rewrite !Nat.add_sub. cbn [firstn result_str find fst snd Nat.eqb caps].
  rewrite !parseInt_hex_pair by assumption. reflexivity.
Qed.

Lemma parse_hex6_sharp s : parse_hex6 (35%N :: s) = None.
Proof.
  destruct s as [|d2 [|d3 [|d4 [|d5 [|d6 [|d7 s7]]]]]]; try reflexivity.
Qed.

Lemma hexToRgb_eq s :
  hexToRgb s
  = match s with
    | a :: s' => if (a =? 35)%N then parse_hex6 s' else parse_hex6 s
    | [] => None
    end.
Proof.
  unfold hexToRgb. change re_hexToRgb with (Seq Bol (Seq (Opt (Chr (cu "#"))) hex_body)).
  rewrite search_bol. cbn [rmatch]. rewrite rmatch_opt_chr. cbn [rest pos caps].
  destruct s as [|a s'].
  - apply (hex_body_spec 0 []).
  - rewrite class_sharp.
    pose proof (hex_body_spec 0 (a :: s')) as H0.
    destruct (N.eqb_spec a 35) as [->|Hne]; [|exact H0].
    rewrite parse_hex6_sharp in H0.
    pose proof (hex_body_spec 1 s') as H1.
    destruct (rmatch true hex_body Some (Build_mstate 1 s' [])); [exact H1|].
    rewrite <- H1. exact H0.
Qed.

Lemma parse_hex6_some s rgb :
  parse_hex6 s = Some rgb <->
  exists d1 d2 d3 d4 d5 d6,
    s = [d1; d2; d3; d4; d5; d6] /\ forallb is_hex_char s = true /\
    rgb = rgb_of (byte_of d1 d2) (byte_of d3 d4) (byte_of d5 d6).
Proof.
  unfold parse_hex6. split.
  - destruct s as [|d1 [|d2 [|d3 [|d4 [|d5 [|d6 [|d7 s7]]]]]]]; try discriminate.
    destruct (forallb is_hex_char _) eqn:E; [|discriminate].
    intros H. injection H as <-. exists d1, d2, d3, d4, d5, d6. auto.
  - intros (d1 & d2 & d3 & d4 & d5 & d6 & -> & H & ->). rewrite H. reflexivity.
Qed.

Lemma hex_pattern_not_sharp ds a s' :
  List.length ds = 6%nat -> forallb is_hex_char ds = true -> ds = a :: s' -> (a =? 35)%N = false.
Proof.
  intros _ H ->. cbn [forallb] in H. apply andb_prop in H. destruct H as [H _].
  destruct (N.eqb_spec a 35) as [->|]; [discriminate|reflexivity].
Qed.

(** [hexToRgb] succeeds exactly on the strings of the pattern. *)
Lemma hexToRgb_some s rgb :
  hexToRgb s = Some rgb <->
  exists d1 d2 d3 d4 d5 d6,
    hex_pattern s [d1; d2; d3; d4; d5; d6] /\
    rgb = rgb_of (byte_of d1 d2) (byte_of d3 d4) (byte_of d5 d6).
Proof.
  rewrite hexToRgb_eq. unfold hex_pattern. split.
  - destruct s as [|a s']; [discriminate|].
    destruct (N.eqb_spec a 35) as [->|Hne]; intros H;
      apply parse_hex6_some in H;
      destruct H as (d1 & d2 & d3 & d4 & d5 & d6 & E & H & ->);
      exists d1, d2, d3, d4, d5, d6; rewrite <- E; repeat split; auto;
      rewrite E; reflexivity.
  - intros (d1 & d2 & d3 & d4 & d5 & d6 & ([E|E] & _ & H) & ->); subst s.
    + rewrite (hex_pattern_not_sharp [d1; d2; d3; d4; d5; d6] d1 _ eq_refl H eq_refl).
      apply parse_hex6_some. exists d1, d2, d3, d4, d5, d6. auto.
    + change (cu "#") with 35%N. cbn [N.eqb Pos.eqb].
      apply parse_hex6_some. exists d1, d2, d3, d4, d5, d6. auto.
Qed.

Lemma hexToRgb_none s :
  hexToRgb s = None <-> ~ exists ds, hex_pattern s ds.
Proof.
  split.
  - intros H (ds & Hp).
    assert (exists rgb, hexToRgb s = Some rgb) as [rgb Hs]; [|congruence].
    destruct Hp as (E & L & F).
    destruct ds as [|d1 [|d2 [|d3 [|d4 [|d5 [|d6 [|d7 s7]]]]]]]; try discriminate.
    eexists. apply hexToRgb_some. exists d1, d2, d3, d4, d5, d6.
    split; [|reflexivity]. repeat split; auto.
  - intros H. destruct (hexToRgb s) as [rgb|] eqn:E; [|reflexivity].
    exfalso. apply H. apply hexToRgb_some in E.
    destruct E as (d1 & d2 & d3 & d4 & d5 & d6 & Hp & _). eauto.
Qed.

Lemma take_class_ext p q n : (forall c, p c = q c) ->
  forall s, take_class p n s = take_class q n s.
Proof.
  intros H. induction n as [|n IH]; intros [|c s]; cbn; auto.
  rewrite H, IH. reflexivity.
Qed.

Lemma take_class_6 s :
  match take_class is_hex_char 6 s with Some [] => true | _ => false end = true <->
  List.length s = 6%nat /\ forallb is_hex_char s = true.
Proof.
  destruct s as [|d1 [|d2 [|d3 [|d4 [|d5 [|d6 [|d7 s7]]]]]]];
    cbn [take_class forallb List.length];
    repeat match goal with
      | |- context [is_hex_char ?d] => destruct (is_hex_char d)
      end; cbn [andb]; split; try discriminate; try tauto; intros [? ?];
      try discriminate.
Qed.

(** The test of the [hex] case accepts exactly the strings of the pattern. *)
Lemma test_hex_input s :
  test false re_hex_input s = true <-> exists ds, hex_pattern s ds.
Proof.
  unfold test, re_hex_input. rewrite search_bol. cbn [rmatch].
  rewrite rmatch_opt_chr. cbn [rest pos caps].
  set (body := fun (n : nat) (t : jsstring) =>
    match take_class is_hex_char 6 t with Some [] => true | _ => false end).
  assert (Hb : forall n t,
    match rmatch false (Exactly 6 (Class [(48, 57); (65, 70); (97, 102)]%N))
            (fun st => match rest st with [] => Some st | _ :: _ => None end)
            (Build_mstate n t []) with
    | Some _ => true | None => false end = body n t).
  { intros n t. rewrite rmatch_exactly. cbn [rest pos caps]. unfold body.
    rewrite (take_class_ext _ is_hex_char 6 class_hex_cs).
    destruct (take_class is_hex_char 6 t) as [[|? ?]|]; reflexivity. }
  unfold hex_pattern. destruct s as [|a s'].
  - match goal with
    | |- ?X = true <-> _ =>
        replace X with (body 0%nat []) by (symmetry; exact (Hb 0%nat []))
    end.
    unfold body. split; [discriminate|].
    intros (ds & [E|E] & L & _); [subst ds|]; discriminate.
  - rewrite class_sharp. destruct (N.eqb_spec a 35) as [->|Hne].
    + pose proof (Hb 1%nat s') as H1. pose proof (Hb 0%nat (35%N :: s')) as H0.
      assert (Hs : body 0%nat (35%N :: s') = false) by reflexivity.
      destruct (rmatch false _ _ (Build_mstate 1 s' [])).
      * split; [intros _|reflexivity]. symmetry in H1. apply take_class_6 in H1.
        exists s'. tauto.
      * match goal with
        | |- ?X = true <-> _ =>
            replace X with (body 0%nat (35%N :: s')) by (symmetry; exact H0)
        end.
        rewrite Hs. split; [discriminate|].
        intros (ds & [E|E] & L & F).
        -- subst ds. cbn in F. discriminate.
        -- injection E as <-. symmetry in H1.
           assert (body 1%nat s' = true) by (apply take_class_6; auto). congruence.
    + match goal with
      | |- ?X = true <-> _ =>
          replace X with (body 0%nat (a :: s')) by (symmetry; exact (Hb 0%nat (a :: s')))
      end.
      unfold body. rewrite take_class_6. split.
      * intros H. exists (a :: s'). tauto.
      * intros (ds & [E|E] & L & F); [subst ds; auto|].
        injection E as E1 E2. change (cu "#") with 35%N in E1. congruence.
Qed.

(** ** The three-integer pattern *)

Lemma class_cs rs c : class_matches false rs c = in_ranges rs c.
Proof. unfold class_matches. cbn [andb]. apply orb_false_r. Qed.

Lemma space_not_digit : forall c, is_space c && is_digit c = false.
Proof. by_ascii. Qed.

Lemma digit_not_comma : forall c, is_digit c && (c =? 44)%N = false.
Proof. by_ascii. Qed.

Lemma take_while_ext p q : (forall c, p c = q c) ->
  forall s, take_while p s = take_while q s.
Proof.
  intros H. induction s as [|c s IH]; cbn; [reflexivity|].
  rewrite H, IH. reflexivity.
Qed.

Lemma drop_while_ext p q : (forall c, p c = q c) ->
  forall s, drop_while p s = drop_while q s.
Proof.
  intros H. induction s as [|c s IH]; cbn; [reflexivity|].
  rewrite H, IH. reflexivity.
Qed.

Lemma firstn_take_while p s :
  firstn (List.length (take_while p s)) s = take_while p s.
Proof.
  induction s as [|c s IH]; cbn; [reflexivity|].
  destruct (p c); cbn; [rewrite IH|]; reflexivity.
Qed.

(** A greedy run of one class stops at the end of the run when the
    continuation succeeds there or fails wherever the run could stop
    earlier. *)
Lemma star_class_end p k : forall s n cs,
  k (Build_mstate (n + List.length (take_while p s)) (drop_while p s) cs) <> None \/
  (forall n' c s' cs', p c = true -> k (Build_mstate n' (c :: s') cs') = None) ->
  star_class p k n s cs
  = k (Build_mstate (n + List.length (take_while p s)) (drop_while p s) cs).
Proof.
  induction s as [|c s IH]; intros n cs H.
  - cbn. rewrite Nat.add_0_r. reflexivity.
  - cbn [star_class take_while drop_while] in *.
    destruct (p c) eqn:Ec.
    + cbn [List.length] in *.
      replace (n + S (List.length (take_while p s)))%nat
        with (S n + List.length (take_while p s))%nat in * by lia.
      rewrite IH by (destruct H as [H|H]; [left|right]; exact H).
      destruct (k (Build_mstate (S n + _) _ _)) eqn:Ek; [reflexivity|].
      destruct H as [H|H]; [congruence|]. apply H. exact Ec.
    + cbn. rewrite Nat.add_0_r. reflexivity.
Qed.

(** A group of one or more digits. *)
Lemma group_digits i k n s cs :
  (forall st, k st <> None) \/
  (forall n' c s' cs', is_digit c = true -> k (Build_mstate n' (c :: s') cs') = None) ->
  rmatch false (Group i (Plus (Class decimal_digit))) k (Build_mstate n s cs)
  = match digits_then s with
    | Some (d, s') => k (Build_mstate (n + List.length d) s' ((i, d) :: cs))
    | None => None
    end.
Proof.
  intros H. cbn [rmatch]. rewrite rmatch_plus. unfold digits_then.
  destruct s as [|c s']; [reflexivity|].
  rewrite class_cs. fold (is_digit c). cbn [take_while drop_while].
  destruct (is_digit c) eqn:Ec; [|reflexivity].
  rewrite (star_class_end (class_matches false decimal_digit)).
  - cbn [pos rest caps].
    rewrite (take_while_ext _ is_digit) by apply class_cs.
    rewrite (drop_while_ext _ is_digit) by apply class_cs.
    replace (S n + List.length (take_while is_digit s') - n)%nat
      with (S (List.length (take_while is_digit s'))) by lia.
    cbn [firstn List.length]. rewrite firstn_take_while.
    rewrite Nat.add_succ_r. reflexivity.
  - destruct H as [H|H]; [left; apply H|right].
    intros n' c0 s0 cs0 Hc. cbn [pos rest caps]. apply H.
    rewrite class_cs in Hc. exact Hc.
Qed.

Lemma rmatch_seq ic r1 r2 k st :
  rmatch ic (Seq r1 r2) k st = rmatch ic r1 (rmatch ic r2 k) st.
Proof. reflexivity. Qed.

Lemma rmatch_chr ic c k st :
  rmatch ic (Chr c) k st = step_char (class_matches ic [(c, c)]) k st.
Proof. reflexivity. Qed.

Lemma comma_fails_on_digit R k n c s cs :
  is_digit c = true ->
  rmatch false (Seq (Chr (cu ",")) R) k (Build_mstate n (c :: s) cs) = None.
Proof.
  intros H. cbn [rmatch]. unfold step_char. cbn [rest].
  rewrite class_comma. pose proof (digit_not_comma c) as Hc.
  rewrite H in Hc. cbn [andb] in Hc. rewrite Hc. reflexivity.
Qed.

Lemma digits_fail_on_space i k n c s cs :
  is_space c = true ->
  rmatch false (Group i (Plus (Class decimal_digit))) k (Build_mstate n (c :: s) cs) = None.
Proof.
  intros H. cbn [rmatch]. rewrite rmatch_plus, class_cs. fold (is_digit c).
  pose proof (space_not_digit c) as Hc. rewrite H in Hc. cbn [andb] in Hc.
  rewrite Hc. reflexivity.
Qed.

Lemma comma_spaces_step R k n s cs :
  (forall n' c s' cs', is_space c = true ->
     rmatch false R k (Build_mstate n' (c :: s') cs') = None) ->
  rmatch false (Seq (Chr (cu ",")) (Seq (Star (Class white_space)) R)) k
    (Build_mstate n s cs)
  = match s with
    | c :: t =>
        if (c =? 44)%N then
          rmatch false R k
            (Build_mstate (S n + List.length (take_while is_space t))
               (drop_while is_space t) cs)
        else None
    | [] => None
    end.
Proof.
  intros H. rewrite rmatch_seq, rmatch_chr. unfold step_char. cbn [rest pos caps].
  destruct s as [|c t]; [reflexivity|].
  rewrite class_comma. destruct (c =? 44)%N; [|reflexivity].
  rewrite rmatch_seq, rmatch_star.
  rewrite star_class_end.
  - rewrite (take_while_ext _ is_space), (drop_while_ext _ is_space)
      by apply class_cs. reflexivity.
  - right. intros n' c0 s0 cs0 Hc. rewrite class_cs in Hc. apply H. exact Hc.
Qed.

(** The match of [re_triple] at one position. *)
Lemma triple_at_spec n s :
  option_map groups (rmatch false re_triple Some (Build_mstate n s [])) = triple_at s.
Proof.
  unfold re_triple, triple_at.
  rewrite rmatch_seq, group_digits
    by (right; intros; apply comma_fails_on_digit; assumption).
  destruct (digits_then s) as [[d1 s1]|]; [|reflexivity].
  rewrite comma_spaces_step
    by (intros; rewrite rmatch_seq; apply digits_fail_on_space; assumption).
  unfold comma_spaces.
  destruct s1 as [|c1 t1]; [reflexivity|].
  destruct (c1 =? 44)%N; [|reflexivity].
  rewrite rmatch_seq, group_digits
    by (right; intros; apply comma_fails_on_digit; assumption).
  destruct (digits_then (drop_while is_space t1)) as [[d2 s3]|]; [|reflexivity].
  rewrite comma_spaces_step
    by (intros; apply digits_fail_on_space; assumption).
  destruct s3 as [|c3 t3]; [reflexivity|].
  destruct (c3 =? 44)%N; [|reflexivity].
  rewrite group_digits by (left; discriminate).
  destruct (digits_then (drop_while is_space t3)) as [[d3 s5]|]; reflexivity.
Qed.

(** [exec] with [re_triple] finds the leftmost match. *)
Lemma exec_triple s : option_map groups (exec false re_triple s) = triple_search s.
Proof.
  unfold exec. generalize 0%nat.
  induction s as [|c s IH]; intros n; cbn [search triple_search];
    rewrite <- (triple_at_spec n);
    destruct (rmatch false re_triple Some _); try reflexivity.
  cbn [option_map]. apply IH.
Qed.

(** ** The leftmost match, declaratively *)

Lemma take_drop p s : take_while p s ++ drop_while p s = s.
Proof.
  induction s as [|c s IH]; cbn; [reflexivity|].
  destruct (p c); cbn; [rewrite IH|]; reflexivity.
Qed.

Lemma take_while_all p s : forallb p (take_while p s) = true.
Proof.
  induction s as [|c s IH]; cbn; [reflexivity|].
  destruct (p c) eqn:E; cbn; [rewrite E, IH|]; reflexivity.
Qed.

Lemma drop_while_head p s :
  match drop_while p s with c :: _ => p c = false | [] => True end.
Proof.
  induction s as [|c s IH]; cbn; [exact I|].
  destruct (p c) eqn:E; [exact IH|exact E].
Qed.

Lemma span_app_all p a t :
  forallb p a = true ->
  take_while p (a ++ t) = a ++ take_while p t /\
  drop_while p (a ++ t) = drop_while p t.
Proof.
  induction a as [|c a IH]; cbn; intros H; [auto|].
  apply andb_prop in H. destruct H as [Hc Ha]. rewrite Hc.
  destruct (IH Ha) as [-> ->]. auto.
Qed.

Lemma span_stop p t :
  match t with c :: _ => p c = false | [] => True end ->
  take_while p t = [] /\ drop_while p t = t.
Proof. destruct t as [|c t]; cbn; [auto|]. intros ->. auto. Qed.

Lemma span_app p a t :
  forallb p a = true ->
  match t with c :: _ => p c = false | [] => True end ->
  take_while p (a ++ t) = a /\ drop_while p (a ++ t) = t.
Proof.
  intros Ha Ht. destruct (span_app_all p a t Ha) as [-> ->].
  destruct (span_stop p t Ht) as [-> ->]. rewrite app_nil_r. auto.
Qed.

Lemma comma_not_digit : is_digit (cu ",") = false.
Proof. reflexivity. Qed.

Lemma digits_head d t : digits d ->
  match d ++ t with c :: _ => is_space c = false | [] => True end.
Proof.
  intros [Hne Hd]. destruct d as [|c d]; [congruence|]. cbn [forallb app] in *.
  apply andb_prop in Hd. destruct Hd as [Hc _].
  pose proof (space_not_digit c) as H. rewrite Hc, andb_true_r in H. exact H.
Qed.

Lemma digits_then_some s d s' :
  digits_then s = Some (d, s') ->
  digits d /\ s = d ++ s' /\ no_digit_next s'.
Proof.
  unfold digits_then, digits, no_digit_next.
  pose proof (take_drop is_digit s) as H1.
  pose proof (take_while_all is_digit s) as H2.
  pose proof (drop_while_head is_digit s) as H3.
  destruct (take_while is_digit s) as [|c t] eqn:E; [discriminate|].
  intros H. injection H as <- <-. repeat split; auto. discriminate.
Qed.

Lemma digits_then_app d t :
  digits d ->
  digits_then (d ++ t) = Some (d ++ take_while is_digit t, drop_while is_digit t).
Proof.
  intros [Hne Hd]. unfold digits_then.
  destruct (span_app_all is_digit d t Hd) as [-> ->].
  destruct d as [|c d]; [congruence|]. reflexivity.
Qed.

Lemma digits_then_comma d t :
  digits d -> digits_then (d ++ cu "," :: t) = Some (d, cu "," :: t).
Proof.
  intros H. rewrite digits_then_app by assumption.
  cbn [take_while drop_while]. rewrite comma_not_digit, app_nil_r. reflexivity.
Qed.

Lemma comma_spaces_app w d t :
  spaces w -> digits d ->
  comma_spaces (cu "," :: w ++ d ++ t) = Some (d ++ t).
Proof.
  intros Hw Hd. unfold comma_spaces. change (cu "," =? 44)%N with true. cbv iota.
  destruct (span_app is_space w (d ++ t) Hw (digits_head d t Hd)) as [_ ->].
  reflexivity.
Qed.

Lemma comma_spaces_some s s' :
  comma_spaces s = Some s' ->
  exists w, spaces w /\ s = cu "," :: w ++ s'.
Proof.
  unfold comma_spaces. destruct s as [|c t]; [discriminate|].
  destruct (N.eqb_spec c 44) as [->|]; [|discriminate].
  intros H. injection H as <-. exists (take_while is_space t).
  split; [apply take_while_all|]. rewrite take_drop. reflexivity.
Qed.

(** A match at the start of the string, however long its third integer, makes
    [triple_at] succeed with the longest third integer. *)
Lemma triple_at_complete s d1 w1 d2 w2 d3 post :
  triple_at_pos s [] d1 w1 d2 w2 d3 post ->
  triple_at s = Some (d1, d2, d3 ++ take_while is_digit post).
Proof.
  intros (-> & H1 & Hw1 & H2 & Hw2 & H3). cbn [app]. unfold triple_at.
  rewrite digits_then_comma by assumption.
  rewrite comma_spaces_app by assumption.
  rewrite digits_then_comma by assumption.
  rewrite comma_spaces_app by assumption.
  rewrite digits_then_app by assumption. reflexivity.
Qed.

Lemma triple_at_sound s d1 d2 d3 :
  triple_at s = Some (d1, d2, d3) ->
  exists w1 w2 post, triple_at_pos s [] d1 w1 d2 w2 d3 post /\ no_digit_next post.
Proof.
  unfold triple_at.
  destruct (digits_then s) as [[e1 s1]|] eqn:E1; [|discriminate].
  destruct (comma_spaces s1) as [s2|] eqn:E2; [|discriminate].
  destruct (digits_then s2) as [[e2 s3]|] eqn:E3; [|discriminate].
  destruct (comma_spaces s3) as [s4|] eqn:E4; [|discriminate].
  destruct (digits_then s4) as [[e3 s5]|] eqn:E5; [|discriminate].
  intros H. injection H as <- <- <-.
  apply digits_then_some in E1, E3, E5.
  destruct E1 as (H1 & -> & _), E3 as (H2 & -> & _), E5 as (H3 & -> & Hp).
  apply comma_spaces_some in E2, E4.
  destruct E2 as (w1 & Hw1 & ->), E4 as (w2 & Hw2 & ->).
  exists w1, w2, s5. unfold triple_at_pos. cbn [app].
  split; [split; [reflexivity|tauto]|exact Hp].
Qed.

Lemma triple_search_some s t :
  triple_search s = Some t ->
  exists pre s', s = pre ++ s' /\ triple_at s' = Some t /\
    forall pre1 s1, s = pre1 ++ s1 ->
      (List.length pre1 < List.length pre)%nat -> triple_at s1 = None.
Proof.
  induction s as [|c s IH]; cbn [triple_search].
  - destruct (triple_at []) eqn:E; [|discriminate].
    intros H. injection H as <-. exists [], []. repeat split; auto.
    cbn. intros. lia.
  - destruct (triple_at (c :: s)) eqn:E.
    + intros H. injection H as <-. exists [], (c :: s). repeat split; auto.
      cbn. intros. lia.
    + intros H. destruct (IH H) as (pre & s' & -> & Ht & Hmin).
      exists (c :: pre), s'. repeat split; auto.
      intros [|c1 pre1] s1 Hs Hlen.
      * cbn in Hs. subst s1. exact E.
      * cbn in Hs. injection Hs as <- Hs. apply (Hmin pre1 s1 Hs).
        cbn in Hlen. lia.
Qed.

Lemma triple_search_none s :
  triple_search s = None -> forall pre s', s = pre ++ s' -> triple_at s' = None.
Proof.
  induction s as [|c s IH]; cbn [triple_search].
  - destruct (triple_at []) eqn:E; [discriminate|].
    intros _ [|? ?] s' H; [cbn in H; subst; exact E|discriminate].
  - destruct (triple_at (c :: s)) eqn:E; [discriminate|].
    intros H [|c1 pre] s' Hs.
    + cbn in Hs. subst. exact E.
    + cbn in Hs. injection Hs as _ Hs. apply (IH H pre s' Hs).
Qed.

Lemma app_same_length (a b c d : jsstring) :
  a ++ b = c ++ d -> List.length a = List.length c -> a = c /\ b = d.
Proof.
  revert c. induction a as [|x a IH]; intros [|y c] H L; try discriminate; auto.
  cbn in H, L. injection H as -> H. injection L as L.
  destruct (IH c H L) as [-> ->]. auto.
Qed.

Lemma triple_at_pos_shift s pre d1 w1 d2 w2 d3 post s' :
  s = pre ++ s' -> triple_at_pos s' [] d1 w1 d2 w2 d3 post ->
  triple_at_pos s pre d1 w1 d2 w2 d3 post.
Proof. unfold triple_at_pos. cbn [app]. intros -> (-> & H). tauto. Qed.

Lemma triple_at_pos_suffix s pre d1 w1 d2 w2 d3 post :
  triple_at_pos s pre d1 w1 d2 w2 d3 post ->
  exists s', s = pre ++ s' /\ triple_at_pos s' [] d1 w1 d2 w2 d3 post.
Proof.
  unfold triple_at_pos. cbn [app]. intros (-> & H). eexists. split; [reflexivity|]. tauto.
Qed.

(** The leftmost match is the first occurrence of the pattern. *)
Lemma triple_search_first s d1 d2 d3 :
  triple_search s = Some (d1, d2, d3) <-> first_triple s d1 d2 d3.
Proof.
  unfold first_triple. split.
  - intros H. destruct (triple_search_some _ _ H) as (pre & s' & Hs & Ht & Hmin).
    destruct (triple_at_sound _ _ _ _ Ht) as (w1 & w2 & post & Hp & Hn).
    exists pre, w1, w2, post. split; [|split; [exact Hn|]].
    + eapply triple_at_pos_shift; eassumption.
    + intros pre' e1 v1 e2 v2 e3 post' Hp'.
      destruct (triple_at_pos_suffix _ _ _ _ _ _ _ _ Hp') as (s1 & Hs1 & Hq).
      destruct (Nat.le_gt_cases (List.length pre) (List.length pre')) as [|Hlt]; [assumption|].
      apply triple_at_complete in Hq. rewrite (Hmin pre' s1 Hs1 Hlt) in Hq. discriminate.
  - intros (pre & w1 & w2 & post & Hp & Hn & Hmin).
    destruct (triple_at_pos_suffix _ _ _ _ _ _ _ _ Hp) as (s' & Hs & Hq).
    pose proof (triple_at_complete _ _ _ _ _ _ _ Hq) as Hc.
    destruct (span_stop is_digit post Hn) as [Hnil _].
    rewrite Hnil, app_nil_r in Hc.
    destruct (triple_search s) as [t|] eqn:E.
    + destruct (triple_search_some _ _ E) as (pre0 & s0 & Hs0 & Ht0 & Hmin0).
      destruct t as [[e1 e2] e3].
      destruct (triple_at_sound _ _ _ _ Ht0) as (v1 & v2 & post0 & Hp0 & _).
      pose proof (Hmin _ _ _ _ _ _ _ (triple_at_pos_shift _ _ _ _ _ _ _ _ _ Hs0 Hp0)) as Hle.
      destruct (Nat.eq_dec (List.length pre) (List.length pre0)) as [Heq|Hne].
      * rewrite Hs in Hs0. destruct (app_same_length _ _ _ _ Hs0 Heq) as [_ <-].
        congruence.
      * rewrite (Hmin0 pre s' Hs) in Hc by lia. discriminate.
    + rewrite (triple_search_none _ E pre s' Hs) in Hc. discriminate.
Qed.

(** ** [parseInt] on a run of digits *)

Lemma is_digit_cases c : is_digit c = true ->
  (c = 48 \/ c = 49 \/ c = 50 \/ c = 51 \/ c = 52 \/
   c = 53 \/ c = 54 \/ c = 55 \/ c = 56 \/ c = 57)%N.
Proof.
  unfold is_digit, in_ranges, decimal_digit, existsb, in_range, fst, snd.
  rewrite orb_false_r. intros H. apply andb_prop in H. destruct H as [H1 H2].
  apply N.leb_le in H1, H2. lia.
Qed.

Ltac digit_cases c H :=
  destruct (is_digit_cases c H) as [?|[?|[?|[?|[?|[?|[?|[?|[?|?]]]]]]]]]; subst c.

Lemma digit_val_digit c : is_digit c = true -> digit_val 10 c = Some (Z.of_N c - 48).
Proof. intros H. digit_cases c H; reflexivity. Qed.

Lemma skip_spaces_digit c t : is_digit c = true -> skip_spaces (c :: t) = c :: t.
Proof.
  intros H. cbn [skip_spaces]. pose proof (space_not_digit c) as Hs.
  rewrite H, andb_true_r in Hs. rewrite Hs. reflexivity.
Qed.

Lemma strip_0x_digits d : forallb is_digit d = true -> strip_0x d = None.
Proof.
  destruct d as [|c [|x t]]; cbn [forallb]; intros H.
  - reflexivity.
  - rewrite andb_true_r in H. digit_cases c H; reflexivity.
  - apply andb_prop in H. destruct H as [Hc H].
    apply andb_prop in H. destruct H as [Hx _].
    digit_cases c Hc; try reflexivity.
    digit_cases x Hx; reflexivity.
Qed.

Lemma parse_digits_all d : forall acc,
  forallb is_digit d = true ->
  parse_digits 10 acc true d
  = (fold_left (fun a c => 10 * a + (Z.of_N c - 48)) d acc, true).
Proof.
  induction d as [|c d IH]; intros acc H; cbn [parse_digits fold_left forallb] in *.
  - reflexivity.
  - apply andb_prop in H. destruct H as [Hc H].
    rewrite (digit_val_digit c Hc), IH by assumption.
    rewrite (Z.mul_comm acc 10). reflexivity.
Qed.

Lemma parseInt_digits d : digits d -> parseInt d None = JInt (decimal_value d).
Proof.
  intros [Hne H]. destruct d as [|c t]; [congruence|].
  pose proof (strip_0x_digits _ H) as Hx.
  cbn [forallb] in H. apply andb_prop in H. destruct H as [Hc Ht].
  unfold parseInt. rewrite (skip_spaces_digit c t Hc).
  unfold decimal_value. cbn [fold_left].
  pose proof (digit_val_digit c Hc) as Hv.
  digit_cases c Hc; cbv beta iota zeta; rewrite Hx; cbv beta iota zeta;
    cbn [parse_digits]; rewrite Hv; rewrite parse_digits_all by assumption;
    reflexivity.
Qed.

(** ** The three cases of [validateAndConvertColor] *)

Lemma range_test lo hi v :
  int_geb (JInt v) (JInt lo) && int_leb (JInt v) (JInt hi) = true <-> lo <= v <= hi.
Proof.
  unfold int_geb, int_leb, int_ltb. rewrite andb_true_iff, !negb_true_iff, !Z.ltb_ge.
  tauto.
Qed.

Lemma range_test3 l1 h1 l2 h2 l3 h3 v1 v2 v3 :
  int_geb (JInt v1) (JInt l1) && int_leb (JInt v1) (JInt h1) &&
  int_geb (JInt v2) (JInt l2) && int_leb (JInt v2) (JInt h2) &&
  int_geb (JInt v3) (JInt l3) && int_leb (JInt v3) (JInt h3) = true <->
  l1 <= v1 <= h1 /\ l2 <= v2 <= h2 /\ l3 <= v3 <= h3.
Proof.
  rewrite <- !range_test, !andb_true_iff. tauto.
Qed.

Lemma triple_search_digits s d1 d2 d3 :
  triple_search s = Some (d1, d2, d3) -> digits d1 /\ digits d2 /\ digits d3.
Proof.
  intros H. apply triple_search_first in H.
  destruct H as (pre & w1 & w2 & post & (_ & H) & _). tauto.
Qed.

(** The [rgb] and [ycbcr] cases, by the outcome of the scan. *)
Lemma run_triple st :
  inputType st <> FmtHex ->
  validateAndConvertColor_run st
  = match triple_search (colorInput st) with
    | Some (d1, d2, d3) =>
        let v1 := decimal_value d1 in
        let v2 := decimal_value d2 in
        let v3 := decimal_value d3 in
        let rgb := converted (inputType st) v1 v2 v3 in
        match inputType st with
        | FmtHex => (st, None)
        | FmtRgb =>
            if int_geb (JInt v1) (JInt 0) && int_leb (JInt v1) (JInt 255) &&
               int_geb (JInt v2) (JInt 0) && int_leb (JInt v2) (JInt 255) &&
               int_geb (JInt v3) (JInt 0) && int_leb (JInt v3) (JInt 255)
            then (set_currentColor st (rgbToHex (r rgb) (g rgb) (b rgb)), Some rgb)
            else (st, None)
        | FmtYcbcr =>
            if int_geb (JInt v1) (JInt 16) && int_leb (JInt v1) (JInt 235) &&
               int_geb (JInt v2) (JInt 16) && int_leb (JInt v2) (JInt 240) &&
               int_geb (JInt v3) (JInt 16) && int_leb (JInt v3) (JInt 240)
            then (set_currentColor st (rgbToHex (r rgb) (g rgb) (b rgb)), Some rgb)
            else (st, None)
        end
    | None => (st, None)
    end.
Proof.
  intros Hf. unfold validateAndConvertColor_run.
  pose proof (exec_triple (colorInput st)) as He.
  destruct (colorInput st) as [|c0 s0] eqn:Es.
  - reflexivity.
  - rewrite <- Es in *. clear Es.
    destruct (triple_search (colorInput st)) as [[[d1 d2] d3]|] eqn:Et.
    + destruct (triple_search_digits _ _ _ _ Et) as (H1 & H2 & H3).
      destruct (exec false re_triple (colorInput st)) as [m|]; [|discriminate].
      cbn [option_map] in He. injection He as E1 E2 E3.
      rewrite E1, E2, E3, !parseInt_digits by assumption.
      destruct (inputType st); [congruence|reflexivity|reflexivity].
    + destruct (exec false re_triple (colorInput st)) as [m|]; [discriminate|].
      destruct (inputType st); [congruence|reflexivity|reflexivity].
Qed.

Lemma run_triple_accept st d1 d2 d3 :
  triple_search (colorInput st) = Some (d1, d2, d3) ->
  in_format_range (inputType st)
    (decimal_value d1) (decimal_value d2) (decimal_value d3) ->
  let rgb := converted (inputType st)
               (decimal_value d1) (decimal_value d2) (decimal_value d3) in
  validateAndConvertColor_run st
  = (set_currentColor st (rgbToHex (r rgb) (g rgb) (b rgb)), Some rgb).
Proof.
  intros Ht Hr rgb.
  assert (Hf : inputType st <> FmtHex) by (intros E; rewrite E in Hr; exact Hr).
  rewrite (run_triple st Hf), Ht. cbv zeta. fold rgb.
  destruct (inputType st); [congruence| |]; cbn [in_format_range] in Hr;
    apply range_test3 in Hr; rewrite Hr; reflexivity.
Qed.

Lemma run_triple_reject st :
  inputType st <> FmtHex ->
  (forall d1 d2 d3, triple_search (colorInput st) = Some (d1, d2, d3) ->
     ~ in_format_range (inputType st)
         (decimal_value d1) (decimal_value d2) (decimal_value d3)) ->
  validateAndConvertColor_run st = (st, None).
Proof.
  intros Hf Hr. rewrite (run_triple st Hf).
  destruct (triple_search (colorInput st)) as [[[d1 d2] d3]|]; [|reflexivity].
  specialize (Hr d1 d2 d3 eq_refl). cbv zeta.
  destruct (inputType st); [congruence| |]; cbn [in_format_range] in Hr;
    rewrite <- range_test3 in Hr;
    match goal with |- (if ?b then _ else _) = _ => destruct b end;
    congruence.
Qed.

(** The [hex] case. *)
Lemma run_hex st :
  inputType st = FmtHex ->
  validateAndConvertColor_run st
  = match hexToRgb (colorInput st) with
    | Some rgb =>
        (set_currentColor st
           (if startsWith (colorInput st) (cu "#") then colorInput st
            else cu "#" :: colorInput st), Some rgb)
    | None => (st, None)
    end.
Proof.
  intros Hf. unfold validateAndConvertColor_run. rewrite Hf.
  destruct (colorInput st) as [|c0 s0] eqn:Es; [reflexivity|].
  rewrite <- Es. clear Es c0 s0.
  destruct (test false re_hex_input (colorInput st)) eqn:Et.
  - apply test_hex_input in Et. destruct Et as (ds & Hp).
    destruct ds as [|d1 [|d2 [|d3 [|d4 [|d5 [|d6 [|d7 s7]]]]]]];
      try (destruct Hp as (_ & L & _); discriminate).
    assert (Hs : hexToRgb (colorInput st)
                 = Some (rgb_of (byte_of d1 d2) (byte_of d3 d4) (byte_of d5 d6)))
      by (apply hexToRgb_some; exists d1, d2, d3, d4, d5, d6; auto).
    rewrite Hs.
    assert (Hh : hexToRgb (if startsWith (colorInput st) (cu "#") then colorInput st
                           else cu "#" :: colorInput st)
                 = Some (rgb_of (byte_of d1 d2) (byte_of d3 d4) (byte_of d5 d6))).
    { destruct (startsWith (colorInput st) (cu "#")) eqn:Ew; [exact Hs|].
      apply hexToRgb_some. exists d1, d2, d3, d4, d5, d6. split; [|reflexivity].
      destruct Hp as ([E|E] & L & F); rewrite E in *.
      - repeat split; auto.
      - cbn in Ew. discriminate. }
    rewrite Hh. reflexivity.
  - destruct (hexToRgb (colorInput st)) as [rgb|] eqn:Eh; [|reflexivity].
    apply hexToRgb_some in Eh. destruct Eh as (d1 & d2 & d3 & d4 & d5 & d6 & Hp & _).
    assert (test false re_hex_input (colorInput st) = true)
      by (apply test_hex_input; eauto).
    congruence.
Qed.

(* ================================================================== *)
(** * The colour cell *)

Lemma hex_digit_facts d : 0 <= d < 16 ->
  is_hex_char (hex_digit d) = true /\ hex_value (hex_digit d) = d /\
  (if is_lower (hex_digit d) then (hex_digit d - 32)%N else hex_digit d)
  = upper_hex_digit d.
Proof.
  intros H.
  assert (d = 0 \/ d = 1 \/ d = 2 \/ d = 3 \/ d = 4 \/ d = 5 \/ d = 6 \/ d = 7 \/
          d = 8 \/ d = 9 \/ d = 10 \/ d = 11 \/ d = 12 \/ d = 13 \/ d = 14 \/ d = 15)
    as Hd by lia.
  repeat (destruct Hd as [->|Hd]; [repeat split; reflexivity|]).
  subst d. repeat split; reflexivity.
Qed.

Lemma byte_digits c : 0 <= c <= 255 -> 0 <= c / 16 < 16 /\ 0 <= c mod 16 < 16.
Proof. intros H. Z.to_euclidean_division_equations. lia. Qed.

Lemma lower_hex2_hex c : 0 <= c <= 255 -> forallb is_hex_char (lower_hex2 c) = true.
Proof.
  intros H. destruct (byte_digits c H) as [H1 H2]. unfold lower_hex2. cbn [forallb].
  destruct (hex_digit_facts _ H1) as (-> & _). destruct (hex_digit_facts _ H2) as (-> & _).
  reflexivity.
Qed.

Lemma lower_hex2_byte c :
  0 <= c <= 255 -> byte_of (hex_digit (c / 16)) (hex_digit (c mod 16)) = c.
Proof.
  intros H. destruct (byte_digits c H) as [H1 H2]. unfold byte_of.
  destruct (hex_digit_facts _ H1) as (_ & -> & _).
  destruct (hex_digit_facts _ H2) as (_ & -> & _).
  Z.to_euclidean_division_equations. lia.
Qed.

Lemma lower_hex2_upper c : 0 <= c <= 255 -> toUpperCase (lower_hex2 c) = upper_hex2 c.
Proof.
  intros H. destruct (byte_digits c H) as [H1 H2].
  unfold lower_hex2, upper_hex2, toUpperCase. cbn [map].
  destruct (hex_digit_facts _ H1) as (_ & _ & ->).
  destruct (hex_digit_facts _ H2) as (_ & _ & ->). reflexivity.
Qed.

Lemma rgbToHex_valid r g b :
  0 <= r <= 255 -> 0 <= g <= 255 -> 0 <= b <= 255 ->
  valid_color (rgbToHex (JInt r) (JInt g) (JInt b)).
Proof.
  intros Hr Hg Hb. rewrite rgbToHex_bytes by assumption.
  pose proof (lower_hex2_hex r Hr) as H1. pose proof (lower_hex2_hex g Hg) as H2.
  pose proof (lower_hex2_hex b Hb) as H3.
  unfold lower_hex2 in *. cbn [app forallb] in *.
  do 6 eexists. split; [reflexivity|]. cbn [forallb].
  apply andb_prop in H1, H2, H3.
  destruct H1 as [-> H1], H2 as [-> H2], H3 as [-> H3].
  rewrite andb_true_r in H1, H2, H3. rewrite H1, H2, H3. reflexivity.
Qed.

Lemma valid_color_hexToRgb c :
  valid_color c -> exists rgb, hexToRgb c = Some rgb.
Proof.
  intros (d1 & d2 & d3 & d4 & d5 & d6 & -> & H).
  eexists. apply hexToRgb_some. exists d1, d2, d3, d4, d5, d6.
  split; [|reflexivity]. unfold hex_pattern. auto.
Qed.

(** A call of [validateAndConvertColor] either writes the colour cell and
    sets [rgb], or changes nothing and leaves [rgb] null. *)
Lemma run_shape st :
  (exists c rgb, validateAndConvertColor_run st = (set_currentColor st c, Some rgb)) \/
  validateAndConvertColor_run st = (st, None).
Proof.
  destruct (inputType st) eqn:Ef.
  - rewrite (run_hex st Ef). destruct (hexToRgb (colorInput st)); eauto.
  - rewrite (run_triple st) by congruence. rewrite Ef.
    destruct (triple_search (colorInput st)) as [[[d1 d2] d3]|]; [|auto]. cbv zeta.
    match goal with |- context [if ?b then _ else _] => destruct b end; eauto.
  - rewrite (run_triple st) by congruence. rewrite Ef.
    destruct (triple_search (colorInput st)) as [[[d1 d2] d3]|]; [|auto]. cbv zeta.
    match goal with |- context [if ?b then _ else _] => destruct b end; eauto.
Qed.

Lemma converted_in_range f v1 v2 v3 :
  in_format_range f v1 v2 v3 ->
  exists r g b, converted f v1 v2 v3 = rgb_of r g b /\
    0 <= r <= 255 /\ 0 <= g <= 255 /\ 0 <= b <= 255.
Proof.
  destruct f; cbn [in_format_range converted]; intros H.
  - contradiction.
  - exists v1, v2, v3. tauto.
  - destruct H as (H1 & H2 & H3). rewrite ycbcrToRgb_clamped by assumption.
    do 3 eexists. split; [reflexivity|].
    repeat split; apply clampZ_range; lia.
Qed.

(** Whatever an accepting call writes is a valid colour. *)
Lemma accepted_writes_valid st st' rgb :
  validateAndConvertColor_run st = (st', Some rgb) ->
  valid_color (currentColor st').
Proof.
  destruct (inputType st) eqn:Ef.
  - rewrite (run_hex st Ef).
    destruct (hexToRgb (colorInput st)) as [rgb0|] eqn:Eh; [|discriminate].
    intros H. injection H as <- _. cbn [currentColor set_currentColor].
    apply hexToRgb_some in Eh.
    destruct Eh as (d1 & d2 & d3 & d4 & d5 & d6 & ([E|E] & L & F) & _);
      rewrite E; exists d1, d2, d3, d4, d5, d6; (split; [|exact F]).
    + cbn [startsWith]. change (cu "#") with 35%N.
      rewrite (hex_pattern_not_sharp _ d1 _ L F eq_refl). reflexivity.
    + reflexivity.
  - rewrite (run_triple st) by congruence. rewrite Ef.
    destruct (triple_search (colorInput st)) as [[[d1 d2] d3]|]; [|discriminate].
    cbv zeta.
    match goal with |- context [if ?b then _ else _] => destruct b eqn:Eb end;
      [|discriminate].
    apply range_test3 in Eb.
    destruct (converted_in_range FmtRgb _ _ _ Eb) as (r0 & g0 & b0 & -> & Hr & Hg & Hb).
    cbn [rgb_of r g b]. intros H. injection H as <- _.
    cbn [currentColor set_currentColor]. apply rgbToHex_valid; assumption.
  - rewrite (run_triple st) by congruence. rewrite Ef.
    destruct (triple_search (colorInput st)) as [[[d1 d2] d3]|]; [|discriminate].
    cbv zeta.
    match goal with |- context [if ?b then _ else _] => destruct b eqn:Eb end;
      [|discriminate].
    apply range_test3 in Eb.
    destruct (converted_in_range FmtYcbcr _ _ _ Eb) as (r0 & g0 & b0 & -> & Hr & Hg & Hb).
    cbn [rgb_of r g b]. intros H. injection H as <- _.
    cbn [currentColor set_currentColor]. apply rgbToHex_valid; assumption.
Qed.

Lemma handle_valid st ev :
  valid_color (currentColor st) -> valid_color (currentColor (handle st ev)).
Proof.
  intros H.
  assert (Hv : forall st0, valid_color (currentColor st0) ->
                 valid_color (currentColor (validateAndConvertColor st0))).
  { intros st0 H0. unfold validateAndConvertColor.
    destruct (validateAndConvertColor_run st0) as [st1 [rgb|]] eqn:E.
    - apply (accepted_writes_valid _ _ _ E).
    - destruct (run_shape st0) as [(c & rgb & E')|E']; rewrite E' in E;
        [discriminate|]. injection E as <-. exact H0. }
  destruct ev as [text| |f]; cbn [handle].
  - apply Hv. exact H.
  - apply Hv. exact H.
  - destruct (Format_eqb f (inputType st)); exact H.
Qed.

Lemma reachable_valid st : reachable st -> valid_color (currentColor st).
Proof.
  induction 1 as [|st ev _ IH].
  - exists (cu "3"), (cu "B"), (cu "8"), (cu "2"), (cu "F"), (cu "6").
    split; reflexivity.
  - apply handle_valid, IH.
Qed.

Lemma valid_color_info st :
  valid_color (currentColor st) ->
  exists rgb, hexToRgb (currentColor st) = Some rgb /\
    colorInfo st = Some {| info_hex := toUpperCase (currentColor st);
                           info_rgb := rgb;
                           info_ycbcr := rgbToYcbcr (r rgb) (g rgb) (b rgb) |}.
Proof.
  intros H. destruct (valid_color_hexToRgb _ H) as [rgb Hr].
  exists rgb. split; [exact Hr|]. unfold colorInfo. rewrite Hr.
  destruct H as (d1 & d2 & d3 & d4 & d5 & d6 & -> & _). reflexivity.
Qed.

(* ================================================================== *)
(** * The properties of the specification *)

(** ** Codec *)

(** The sums of the transforms are binary64 sums.  On an exact tie of the
    decimal formula the binary64 sum can fall just below the tie: for
    (0, 36, 12) the decimal formula gives 22.5, the program computes
    22.499999999999996 and rounds to 22. *)
Remark y_sum_is_binary64 :
  y_sum 0 36 12 = S754_finite false 6333186975989759 (-48) /\
  round_half_up (F2Q (y_sum 0 36 12)) = 22 /\
  round_half_up ((299 # 1000) * 0 + (587 # 1000) * 36 + (114 # 1000) * 12) = 23.
Proof. repeat split; vm_compute; reflexivity. Qed.

(** The literals are the binary64 numbers nearest to the decimal
    constants of the source. *)
Remark literals_are_nearest :
  c_0_299 = decimal 299 1000 /\ c_0_587 = decimal 587 1000 /\
  c_0_114 = decimal 114 1000 /\ c_0_168736 = decimal 168736 1000000 /\
  c_0_331264 = decimal 331264 1000000 /\ c_0_5 = decimal 5 10 /\
  c_0_418688 = decimal 418688 1000000 /\ c_0_081312 = decimal 81312 1000000 /\
  c_1_164 = decimal 1164 1000 /\ c_1_596 = decimal 1596 1000 /\
  c_0_392 = decimal 392 1000 /\ c_0_813 = decimal 813 1000 /\
  c_2_017 = decimal 2017 1000 /\
  n16 = of_Z 16 /\ n128 = of_Z 128 /\ n235 = of_Z 235 /\ n240 = of_Z 240.
Proof. repeat split; vm_compute; reflexivity. Qed.



(** C2: for r, g, b in [0,255], [hexToRgb (rgbToHex r g b)] succeeds and
    returns (r, g, b). *)
Theorem hexToRgb_rgbToHex (r g b : Z) :
  0 <= r <= 255 -> 0 <= g <= 255 -> 0 <= b <= 255 ->
  hexToRgb (rgbToHex (JInt r) (JInt g) (JInt b)) = Some (rgb_of r g b).
Proof.
  intros Hr Hg Hb. rewrite rgbToHex_bytes by assumption.
  apply hexToRgb_some. unfold lower_hex2. cbn [app].
  do 6 eexists. split.
  - unfold hex_pattern. split; [right; reflexivity|]. split; [reflexivity|].
    pose proof (lower_hex2_hex r Hr) as H1. pose proof (lower_hex2_hex g Hg) as H2.
    pose proof (lower_hex2_hex b Hb) as H3.
    unfold lower_hex2 in *. cbn [forallb] in *.
    apply andb_prop in H1, H2, H3.
    destruct H1 as [-> H1], H2 as [-> H2], H3 as [-> H3].
    rewrite andb_true_r in H1, H2, H3. rewrite H1, H2, H3. reflexivity.
  - rewrite !lower_hex2_byte by assumption. reflexivity.
Qed.

Lemma hexToRgb_rgbToHex_witness :
  (0 <= 59 <= 255 /\ 0 <= 130 <= 255 /\ 0 <= 246 <= 255) /\
  hexToRgb (rgbToHex (JInt 59) (JInt 130) (JInt 246)) = Some (rgb_of 59 130 246).
Proof.
  split; [lia|].
  apply (hexToRgb_rgbToHex 59 130 246); lia.
Defined.

(** C3, as the specification states it, fails: the digits that [rgbToHex]
    produces are lower-case. *)
Lemma rgbToHex_is_not_upper_case :
  rgbToHex (JInt 59) (JInt 130) (JInt 246) = u "#3b82f6" /\
  upper_hex_form 59 130 246 = u "#3B82F6" /\
  rgbToHex (JInt 59) (JInt 130) (JInt 246) <> upper_hex_form 59 130 246.
Proof.
  split; [vm_compute; reflexivity|]. split; [vm_compute; reflexivity|].
  vm_compute. discriminate.
Qed.

(** C3, amended: for r, g, b in [0,255], [rgbToHex] returns [#] followed by
    each channel in two lower-case hexadecimal digits; the upper-case form is
    what [toUpperCase] makes of it (as [colorInfo] does for the display). *)
Theorem rgbToHex_lower_case (r g b : Z) :
  0 <= r <= 255 -> 0 <= g <= 255 -> 0 <= b <= 255 ->
  rgbToHex (JInt r) (JInt g) (JInt b)
  = cu "#" :: lower_hex2 r ++ lower_hex2 g ++ lower_hex2 b /\
  toUpperCase (rgbToHex (JInt r) (JInt g) (JInt b)) = upper_hex_form r g b.
Proof.
  intros Hr Hg Hb. rewrite rgbToHex_bytes by assumption. split; [reflexivity|].
  unfold upper_hex_form. rewrite <- !lower_hex2_upper by assumption.
  unfold toUpperCase. cbn [map]. rewrite !map_app. reflexivity.
Qed.

Lemma rgbToHex_lower_case_witness :
  (0 <= 59 <= 255 /\ 0 <= 130 <= 255 /\ 0 <= 246 <= 255) /\
  rgbToHex (JInt 59) (JInt 130) (JInt 246)
  = cu "#" :: lower_hex2 59 ++ lower_hex2 130 ++ lower_hex2 246 /\
  toUpperCase (rgbToHex (JInt 59) (JInt 130) (JInt 246)) = upper_hex_form 59 130 246.
Proof.
  split; [lia|].
  apply (rgbToHex_lower_case 59 130 246); lia.
Defined.

(** C4: for r, g, b in [0,255], the components of [rgbToYcbcr] are integers
    with y in [16,235] and cb, cr in [16,240]. *)
Theorem rgbToYcbcr_range (r g b : Z) :
  0 <= r <= 255 -> 0 <= g <= 255 -> 0 <= b <= 255 ->
  exists y cb cr,
    rgbToYcbcr (JInt r) (JInt g) (JInt b) = ycbcr_of y cb cr /\
    16 <= y <= 235 /\ 16 <= cb <= 240 /\ 16 <= cr <= 240.
Proof.
  intros Hr Hg Hb. rewrite rgbToYcbcr_clamped by assumption.
  do 3 eexists. split; [reflexivity|].
  repeat split; apply clampZ_range; lia.
Qed.

Lemma rgbToYcbcr_range_witness :
  (0 <= 255 <= 255 /\ 0 <= 0 <= 255 /\ 0 <= 255 <= 255) /\
  exists y cb cr,
    rgbToYcbcr (JInt 255) (JInt 0) (JInt 255) = ycbcr_of y cb cr /\
    16 <= y <= 235 /\ 16 <= cb <= 240 /\ 16 <= cr <= 240.
Proof.
  split; [lia|].
  apply (rgbToYcbcr_range 255 0 255); lia.
Defined.

(** C5: for y in [16,235] and cb, cr in [16,240], [ycbcrToRgb] returns for
    each channel the sum over the offset-adjusted components (a finite
    binary64 number) rounded to a nearest integer and then clamped to
    [0,255]; every channel lies in [0,255]. *)
Theorem ycbcrToRgb_rounds_then_clamps (y cb cr : Z) :
  16 <= y <= 235 -> 16 <= cb <= 240 -> 16 <= cr <= 240 ->
  is_finite (r_sum y cb cr) = true /\
  is_finite (g_sum y cb cr) = true /\
  is_finite (b_sum y cb cr) = true /\
  exists kr kg kb,
    nearest (F2Q (r_sum y cb cr)) kr /\
    nearest (F2Q (g_sum y cb cr)) kg /\
    nearest (F2Q (b_sum y cb cr)) kb /\
    ycbcrToRgb (JInt y) (JInt cb) (JInt cr)
    = rgb_of (clampZ 0 255 kr) (clampZ 0 255 kg) (clampZ 0 255 kb) /\
    0 <= clampZ 0 255 kr <= 255 /\
    0 <= clampZ 0 255 kg <= 255 /\
    0 <= clampZ 0 255 kb <= 255.
Proof.
  intros Hy Hcb Hcr.
  split; [apply r_sum_finite; assumption|].
  split; [apply g_sum_finite; assumption|].
  split; [apply b_sum_finite; assumption|].
  assert (Hn : forall q, nearest q (round_half_up q)).
  { intros q. destruct (round_half_up_nearest q) as [H1 H2].
    split; [exact H1|apply Qlt_le_weak, H2]. }
  exists (round_half_up (F2Q (r_sum y cb cr))), (round_half_up (F2Q (g_sum y cb cr))),
    (round_half_up (F2Q (b_sum y cb cr))).
  split; [apply Hn|]. split; [apply Hn|]. split; [apply Hn|].
  split; [apply ycbcrToRgb_clamped; assumption|].
  repeat split; apply clampZ_range; lia.
Qed.

Lemma ycbcrToRgb_rounds_then_clamps_witness :
  (16 <= 122 <= 235 /\ 16 <= 198 <= 240 /\ 16 <= 83 <= 240) /\
  is_finite (r_sum 122 198 83) = true /\
  is_finite (g_sum 122 198 83) = true /\
  is_finite (b_sum 122 198 83) = true /\
  exists kr kg kb,
    nearest (F2Q (r_sum 122 198 83)) kr /\
    nearest (F2Q (g_sum 122 198 83)) kg /\
    nearest (F2Q (b_sum 122 198 83)) kb /\
    ycbcrToRgb (JInt 122) (JInt 198) (JInt 83)
    = rgb_of (clampZ 0 255 kr) (clampZ 0 255 kg) (clampZ 0 255 kb) /\
    0 <= clampZ 0 255 kr <= 255 /\
    0 <= clampZ 0 255 kg <= 255 /\
    0 <= clampZ 0 255 kb <= 255.
Proof.
  split; [lia|].
  apply (ycbcrToRgb_rounds_then_clamps 122 198 83); lia.
Defined.

(** C6: [hexToRgb] returns the three bytes of the three pairs of digits
    exactly when the whole string is six hexadecimal digits, in either case,
    after an optional [#]; on every other string it returns null.  The test
    of the [hex] case of the validator accepts the same strings. *)
Theorem hexToRgb_accepts_exactly_the_pattern (s : jsstring) :
  (forall rgb,
     hexToRgb s = Some rgb <->
     exists d1 d2 d3 d4 d5 d6,
       hex_pattern s [d1; d2; d3; d4; d5; d6] /\
       rgb = rgb_of (byte_of d1 d2) (byte_of d3 d4) (byte_of d5 d6)) /\
  (hexToRgb s = None <-> ~ exists ds, hex_pattern s ds) /\
  (test false re_hex_input s = true <-> exists ds, hex_pattern s ds).
Proof.
  split; [intros rgb; apply hexToRgb_some|].
  split; [apply hexToRgb_none|apply test_hex_input].
Qed.

(** Three-digit shorthand, five digits, seven digits, text before or after
    (a final line feed included) are not read. *)
Example hexToRgb_rejects :
  hexToRgb (u "#abc") = None /\ hexToRgb (u "3B82F") = None /\
  hexToRgb (u "#3B82F6A") = None /\ hexToRgb (u "#3B82F6;") = None /\
  hexToRgb (u "x#3B82F6") = None /\ hexToRgb (u "#3B82G6") = None /\
  hexToRgb (u "#3B82F6" ++ [10%N]) = None /\ hexToRgb (u "##3B82F6") = None.
Proof. repeat split; vm_compute; reflexivity. Qed.

(** ** Validator *)

Lemma in_format_range_dec f v1 v2 v3 :
  in_format_range f v1 v2 v3 \/ ~ in_format_range f v1 v2 v3.
Proof. destruct f; cbn [in_format_range]; lia. Qed.

(** C7: under the formats [rgb] and [ycbcr] the input is accepted exactly
    when the scan finds three integers in it, each followed by a comma and
    optional white space before the next, and the three parsed values lie in
    the range of the format.  The values are used as parsed; when one of
    them is out of range nothing is written. *)
Theorem triple_validation (st : State) :
  inputType st <> FmtHex ->
  (accepted st = true <->
   exists d1 d2 d3,
     first_triple (colorInput st) d1 d2 d3 /\
     in_format_range (inputType st)
       (decimal_value d1) (decimal_value d2) (decimal_value d3)) /\
  (forall d1 d2 d3,
     first_triple (colorInput st) d1 d2 d3 ->
     in_format_range (inputType st)
       (decimal_value d1) (decimal_value d2) (decimal_value d3) ->
     let rgb := converted (inputType st)
                  (decimal_value d1) (decimal_value d2) (decimal_value d3) in
     validateAndConvertColor_run st
     = (set_currentColor st (rgbToHex (r rgb) (g rgb) (b rgb)), Some rgb)) /\
  (forall d1 d2 d3,
     first_triple (colorInput st) d1 d2 d3 ->
     ~ in_format_range (inputType st)
         (decimal_value d1) (decimal_value d2) (decimal_value d3) ->
     validateAndConvertColor_run st = (st, None)).
Proof.
  intros Hf. split; [|split].
  - unfold accepted. split.
    + intros H.
      destruct (triple_search (colorInput st)) as [[[d1 d2] d3]|] eqn:Et.
      * exists d1, d2, d3. split; [apply triple_search_first, Et|].
        destruct (in_format_range_dec (inputType st) (decimal_value d1)
                    (decimal_value d2) (decimal_value d3)) as [Hr|Hr]; [exact Hr|].
        rewrite (run_triple_reject st Hf) in H; [discriminate|].
        intros e1 e2 e3 He. rewrite Et in He. injection He as <- <- <-. exact Hr.
      * rewrite (run_triple st Hf), Et in H. discriminate.
    + intros (d1 & d2 & d3 & Hs & Hr). apply triple_search_first in Hs.
      rewrite (run_triple_accept st d1 d2 d3 Hs Hr). reflexivity.
  - intros d1 d2 d3 Hs Hr. apply triple_search_first in Hs.
    apply (run_triple_accept st d1 d2 d3 Hs Hr).
  - intros d1 d2 d3 Hs Hr. apply triple_search_first in Hs.
    apply run_triple_reject; [exact Hf|].
    intros e1 e2 e3 He. rewrite Hs in He. injection He as <- <- <-. exact Hr.
Qed.

Lemma triple_validation_witness :
  inputType st_accepted <> FmtHex /\
  (accepted st_accepted = true <->
   exists d1 d2 d3,
     first_triple (colorInput st_accepted) d1 d2 d3 /\
     in_format_range (inputType st_accepted)
       (decimal_value d1) (decimal_value d2) (decimal_value d3)).
Proof.
  assert (H : inputType st_accepted <> FmtHex) by discriminate.
  exact (conj H (proj1 (triple_validation st_accepted H))).
Defined.

(** The scan takes the first occurrence: in "300,1,2" it finds 300, which is
    out of range, and the input is rejected although "0,1,2" occurs later. *)
Example scan_takes_first_occurrence :
  accepted {| colorInput := u "300,1,2"; inputType := FmtRgb;
              currentColor := u "#000000" |} = false /\
  accepted {| colorInput := u "x 1,2,3456"; inputType := FmtRgb;
              currentColor := u "#000000" |} = false /\
  accepted {| colorInput := u "1 ,2,3"; inputType := FmtRgb;
              currentColor := u "#000000" |} = false /\
  accepted {| colorInput := u "rgb(1,  2,3) and more"; inputType := FmtRgb;
              currentColor := u "#000000" |} = true.
Proof. repeat split; vm_compute; reflexivity. Qed.

(** C8: a call that does not accept the input leaves the whole state as it
    was; a call never changes the raw text or the format. *)
Theorem rejection_is_a_no_op (st : State) :
  accepted st = false ->
  validateAndConvertColor st = st /\
  (forall text,
     accepted (set_colorInput st text) = false ->
     handle st (Input text) = set_colorInput st text /\
     currentColor (handle st (Input text)) = currentColor st) /\
  (forall st0,
     colorInput (validateAndConvertColor st0) = colorInput st0 /\
     inputType (validateAndConvertColor st0) = inputType st0).
Proof.
  assert (Hrej : forall st0, accepted st0 = false -> validateAndConvertColor st0 = st0).
  { intros st0. unfold accepted, validateAndConvertColor.
    destruct (run_shape st0) as [(c & rgb & E)|E]; rewrite E; cbn [fst snd];
      [discriminate|reflexivity]. }
  intros H. split; [apply Hrej, H|]. split.
  - intros text Ht. cbn [handle]. rewrite (Hrej _ Ht). split; reflexivity.
  - intros st0. unfold validateAndConvertColor.
    destruct (run_shape st0) as [(c & rgb & E)|E]; rewrite E; split; reflexivity.
Qed.

Lemma rejection_is_a_no_op_witness :
  accepted st_rejected = false /\
  validateAndConvertColor st_rejected = st_rejected /\
  (forall text,
     accepted (set_colorInput st_rejected text) = false ->
     handle st_rejected (Input text) = set_colorInput st_rejected text /\
     currentColor (handle st_rejected (Input text)) = currentColor st_rejected) /\
  (forall st0,
     colorInput (validateAndConvertColor st0) = colorInput st0 /\
     inputType (validateAndConvertColor st0) = inputType st0).
Proof.
  assert (H : accepted st_rejected = false) by (vm_compute; reflexivity).
  exact (conj H (rejection_is_a_no_op st_rejected H)).
Defined.

Lemma colorInfo_depends_on_color st st' :
  currentColor st' = currentColor st -> colorInfo st' = colorInfo st.
Proof. unfold colorInfo. intros ->. reflexivity. Qed.

(** C9: selecting another format empties the raw text and keeps the current
    colour, hence the displayed triple. *)
Theorem format_switch_keeps_color (st : State) (f : Format) :
  f <> inputType st ->
  inputType (handle st (SelectFormat f)) = f /\
  colorInput (handle st (SelectFormat f)) = [] /\
  currentColor (handle st (SelectFormat f)) = currentColor st /\
  colorInfo (handle st (SelectFormat f)) = colorInfo st.
Proof.
  intros Hf. cbn [handle].
  destruct (Format_eqb f (inputType st)) eqn:E.
  - destruct f, (inputType st); try discriminate; congruence.
  - repeat split.
Qed.

Lemma format_switch_keeps_color_witness :
  FmtYcbcr <> inputType st_accepted_after /\
  inputType (handle st_accepted_after (SelectFormat FmtYcbcr)) = FmtYcbcr /\
  colorInput (handle st_accepted_after (SelectFormat FmtYcbcr)) = [] /\
  currentColor (handle st_accepted_after (SelectFormat FmtYcbcr)) = currentColor st_accepted_after /\
  colorInfo (handle st_accepted_after (SelectFormat FmtYcbcr)) = colorInfo st_accepted_after.
Proof.
  assert (H : FmtYcbcr <> inputType st_accepted_after) by discriminate.
  exact (conj H (format_switch_keeps_color st_accepted_after FmtYcbcr H)).
Defined.

(** The callback of the watcher by itself, and a click on the format that
    is already selected. *)
Lemma on_inputType_change_effect st :
  colorInput (on_inputType_change st) = [] /\
  inputType (on_inputType_change st) = inputType st /\
  currentColor (on_inputType_change st) = currentColor st /\
  handle st (SelectFormat (inputType st)) = st.
Proof.
  repeat split. cbn [handle]. destruct (inputType st); reflexivity.
Qed.

Lemma reachable_run evs : reachable (run evs).
Proof.
  unfold run. generalize reach_initial. generalize initial.
  induction evs as [|ev evs IH]; intros st H; cbn [fold_left]; [exact H|].
  apply IH. constructor. exact H.
Qed.

Lemma reachable_is_run st : reachable st -> exists evs, st = run evs.
Proof.
  induction 1 as [|st ev _ [evs ->]].
  - exists []. reflexivity.
  - exists (evs ++ [ev]). unfold run. rewrite fold_left_app. reflexivity.
Qed.

(** C10: in every reachable state the current colour is [#] and six
    hexadecimal digits, [hexToRgb] reads it and [colorInfo] is not null;
    whatever a call that accepts its input writes is such a string. *)
Theorem reachable_color_is_valid (st : State) :
  reachable st ->
  valid_color (currentColor st) /\
  (exists rgb,
     hexToRgb (currentColor st) = Some rgb /\
     colorInfo st = Some {| info_hex := toUpperCase (currentColor st);
                            info_rgb := rgb;
                            info_ycbcr := rgbToYcbcr (r rgb) (g rgb) (b rgb) |}) /\
  (forall st0,
     accepted st0 = true ->
     valid_color (currentColor (validateAndConvertColor st0))).
Proof.
  intros H. pose proof (reachable_valid st H) as Hv.
  split; [exact Hv|]. split; [apply valid_color_info, Hv|].
  intros st0. unfold accepted, validateAndConvertColor.
  destruct (validateAndConvertColor_run st0) as [st1 [rgb|]] eqn:E; [|discriminate].
  intros _. apply (accepted_writes_valid _ _ _ E).
Qed.

Lemma reachable_color_is_valid_witness :
  reachable st_after_ycbcr /\
  valid_color (currentColor st_after_ycbcr) /\
  (exists rgb,
     hexToRgb (currentColor st_after_ycbcr) = Some rgb /\
     colorInfo st_after_ycbcr = Some {| info_hex := toUpperCase (currentColor st_after_ycbcr);
                            info_rgb := rgb;
                            info_ycbcr := rgbToYcbcr (r rgb) (g rgb) (b rgb) |}) /\
  (forall st0,
     accepted st0 = true ->
     valid_color (currentColor (validateAndConvertColor st0))).
Proof.
  assert (Hr : reachable st_after_ycbcr) by (apply reach_step, reach_step, reach_initial).
  exact (conj Hr (reachable_color_is_valid st_after_ycbcr Hr)).
Defined.

(* ================================================================== *)
(** * Further properties of the program *)

(** ** The transforms outside their declared ranges *)

Ltac fin_chain_any :=
  repeat first
    [ apply fin_add; [| |lia]
    | apply fin_sub; [| |lia]
    | apply (fin_mono 0); [|lia]; apply fin_mul_literal; [literal|]
    | apply (fin_mono 0); [|lia]; apply fin_of_Z
    | apply fin_int
    | apply (fin_offset _ 16)
    | apply (fin_offset _ 128)
    | assumption
    | apply (small_abs _ 16 16); lia
    | apply (small_abs _ 128 128); lia ].

(** The sums of the two transforms are finite for all integers that
    binary64 holds exactly. *)
Lemma forward_sums_finite r g b :
  Z.abs r < 2 ^ 53 -> Z.abs g < 2 ^ 53 -> Z.abs b < 2 ^ 53 ->
  is_finite (y_sum r g b) = true /\ is_finite (cb_sum r g b) = true /\
  is_finite (cr_sum r g b) = true.
Proof.
  intros Hr Hg Hb. split; [|split].
  - apply (finite_in_is_finite _ _ _ : fin 2 _ -> _). unfold y_sum. fin_chain_any.
  - apply (finite_in_is_finite _ _ _ : fin 3 _ -> _).
    unfold cb_sum. change n128 with (of_Z 128). fin_chain_any.
  - apply (finite_in_is_finite _ _ _ : fin 3 _ -> _).
    unfold cr_sum. change n128 with (of_Z 128). fin_chain_any.
Qed.

Lemma inverse_sums_finite y cb cr :
  Z.abs y < 2 ^ 53 -> Z.abs cb < 2 ^ 53 -> Z.abs cr < 2 ^ 53 ->
  is_finite (r_sum y cb cr) = true /\ is_finite (g_sum y cb cr) = true /\
  is_finite (b_sum y cb cr) = true.
Proof.
  intros Hy Hcb Hcr. split; [|split].
  - apply (finite_in_is_finite _ _ _ : fin 1 _ -> _).
    unfold r_sum. change n128 with (of_Z 128). change n16 with (of_Z 16). fin_chain_any.
  - apply (finite_in_is_finite _ _ _ : fin 2 _ -> _).
    unfold g_sum. change n128 with (of_Z 128). change n16 with (of_Z 16). fin_chain_any.
  - apply (finite_in_is_finite _ _ _ : fin 1 _ -> _).
    unfold b_sum. change n128 with (of_Z 128). change n16 with (of_Z 16). fin_chain_any.
Qed.

(** X1: [rgbToYcbcr] clamps whatever integers it is given.  For all
    integers that binary64 holds exactly, inside [0,255] or not, the result
    has y in [16,235] and cb, cr in [16,240]. *)
Theorem rgbToYcbcr_clamps_every_integer (r g b : Z) :
  Z.abs r < 2 ^ 53 -> Z.abs g < 2 ^ 53 -> Z.abs b < 2 ^ 53 ->
  exists y cb cr,
    rgbToYcbcr (JInt r) (JInt g) (JInt b) = ycbcr_of y cb cr /\
    16 <= y <= 235 /\ 16 <= cb <= 240 /\ 16 <= cr <= 240.
Proof.
  intros Hr Hg Hb. destruct literal_values as (E16 & E235 & E240 & _).
  destruct (forward_sums_finite r g b Hr Hg Hb) as (Fy & Fcb & Fcr).
  unfold rgbToYcbcr. cbn [to_number].
  fold (y_sum r g b) (cb_sum r g b) (cr_sum r g b).
  rewrite (clamp_then_round 16 235), (clamp_then_round 16 240),
    (clamp_then_round 16 240); auto; try lia.
  do 3 eexists. split; [reflexivity|].
  repeat split; apply clampZ_range; lia.
Qed.

Lemma rgbToYcbcr_clamps_every_integer_witness :
  (Z.abs (-1000000) < 2 ^ 53 /\ Z.abs 70000 < 2 ^ 53 /\ Z.abs 256 < 2 ^ 53) /\
  exists y cb cr,
    rgbToYcbcr (JInt (-1000000)) (JInt 70000) (JInt 256) = ycbcr_of y cb cr /\
    16 <= y <= 235 /\ 16 <= cb <= 240 /\ 16 <= cr <= 240.
Proof.
  assert (H1 : Z.abs (-1000000) < 2 ^ 53) by (vm_compute; reflexivity).
  assert (H2 : Z.abs 70000 < 2 ^ 53) by (vm_compute; reflexivity).
  assert (H3 : Z.abs 256 < 2 ^ 53) by (vm_compute; reflexivity).
  exact (conj (conj H1 (conj H2 H3))
           (rgbToYcbcr_clamps_every_integer (-1000000) 70000 256 H1 H2 H3)).
Defined.

(** X2: [ycbcrToRgb] clamps whatever integers it is given.  For all
    integers that binary64 holds exactly, inside the declared ranges or not,
    every channel of the result is an integer in [0,255]. *)
Theorem ycbcrToRgb_clamps_every_integer (y cb cr : Z) :
  Z.abs y < 2 ^ 53 -> Z.abs cb < 2 ^ 53 -> Z.abs cr < 2 ^ 53 ->
  exists r g b,
    ycbcrToRgb (JInt y) (JInt cb) (JInt cr) = rgb_of r g b /\
    0 <= r <= 255 /\ 0 <= g <= 255 /\ 0 <= b <= 255.
Proof.
  intros Hy Hcb Hcr.
  destruct (inverse_sums_finite y cb cr Hy Hcb Hcr) as (Fr & Fg & Fb).
  unfold ycbcrToRgb. cbn [to_number].
  fold (r_sum y cb cr) (g_sum y cb cr) (b_sum y cb cr).
  rewrite !round_then_clamp by assumption.
  do 3 eexists. split; [reflexivity|].
  repeat split; apply clampZ_range; lia.
Qed.

Lemma ycbcrToRgb_clamps_every_integer_witness :
  (Z.abs 0 < 2 ^ 53 /\ Z.abs 255 < 2 ^ 53 /\ Z.abs (-4000) < 2 ^ 53) /\
  exists r g b,
    ycbcrToRgb (JInt 0) (JInt 255) (JInt (-4000)) = rgb_of r g b /\
    0 <= r <= 255 /\ 0 <= g <= 255 /\ 0 <= b <= 255.
Proof.
  assert (H1 : Z.abs 0 < 2 ^ 53) by (vm_compute; reflexivity).
  assert (H2 : Z.abs 255 < 2 ^ 53) by (vm_compute; reflexivity).
  assert (H3 : Z.abs (-4000) < 2 ^ 53) by (vm_compute; reflexivity).
  exact (conj (conj H1 (conj H2 H3))
           (ycbcrToRgb_clamps_every_integer 0 255 (-4000) H1 H2 H3)).
Defined.

(** ** The grey axis *)

Lemma YCbCr_eqb_eq a c : YCbCr_eqb a c = true -> a = c.
Proof.
  destruct a as [y1 cb1 cr1], c as [y2 cb2 cr2]. unfold YCbCr_eqb. cbn [y cb cr]. intros H.
  apply andb_prop in H. destruct H as [H H3].
  apply andb_prop in H. destruct H as [H1 H2].
  apply jsint_eqb_eq in H1, H2, H3. congruence.
Qed.

Lemma grey_within_spec d v c :
  grey_within d v c = true -> exists w, c = rgb_of w w w /\ Z.abs (w - v) <= d.
Proof.
  destruct c as [r0 g0 b0]. unfold grey_within. cbn [r g b].
  destruct r0 as [| |w]; try discriminate. intros H.
  apply andb_prop in H. destruct H as [H H3].
  apply andb_prop in H. destruct H as [H1 H2].
  apply jsint_eqb_eq in H1, H2. apply Z.leb_le in H3.
  exists w. subst. split; [reflexivity|exact H3].
Qed.

Lemma grey_forward_all :
  forall_below 256 (fun v =>
    YCbCr_eqb (rgbToYcbcr (JInt v) (JInt v) (JInt v))
              (ycbcr_of (clampZ 16 235 v) 128 128)) = true.
Proof. vm_compute. reflexivity. Qed.

Lemma grey_back_all :
  forall_below 256 (fun v =>
    grey_within 20 v (there_and_back (JInt v) (JInt v) (JInt v))) = true.
Proof. vm_compute. reflexivity. Qed.

(** X3: a grey (v, v, v) with v in [0,255] has the neutral chroma
    cb = cr = 128, and its luma is v clamped to [16,235]. *)
Theorem rgbToYcbcr_grey (v : Z) :
  0 <= v <= 255 ->
  rgbToYcbcr (JInt v) (JInt v) (JInt v) = ycbcr_of (clampZ 16 235 v) 128 128.
Proof.
  intros Hv. apply YCbCr_eqb_eq.
  apply (forall_below_spec 256 _ grey_forward_all v).
  change (Z.of_nat 256) with 256. lia.
Qed.

Lemma rgbToYcbcr_grey_witness :
  0 <= 200 <= 255 /\
  rgbToYcbcr (JInt 200) (JInt 200) (JInt 200) = ycbcr_of (clampZ 16 235 200) 128 128.
Proof.
  assert (H : 0 <= 200 <= 255) by lia.
  exact (conj H (rgbToYcbcr_grey 200 H)).
Defined.

Lemma round_add_zero x : Math_round (x + S754_zero false)%num = Math_round x.
Proof. destruct x as [[]|[]| |s m e]; reflexivity. Qed.

Lemma round_sub_zero x :
  Math_round (x - S754_zero false - S754_zero false)%num = Math_round x.
Proof. destruct x as [[]|[]| |s m e]; reflexivity. Qed.

Lemma neutral_products :
  (of_Z 128 - n128)%num = S754_zero false /\
  (c_1_596 * S754_zero false)%num = S754_zero false /\
  (c_0_392 * S754_zero false)%num = S754_zero false /\
  (c_0_813 * S754_zero false)%num = S754_zero false /\
  (c_2_017 * S754_zero false)%num = S754_zero false.
Proof. repeat split; vm_compute; reflexivity. Qed.

(** X4: with the neutral chroma cb = cr = 128, [ycbcrToRgb] returns three
    equal channels, whatever the luma is (NaN and the infinities
    included). *)
Theorem ycbcrToRgb_neutral_chroma (y0 : jsint) :
  r (ycbcrToRgb y0 (JInt 128) (JInt 128)) = g (ycbcrToRgb y0 (JInt 128) (JInt 128)) /\
  g (ycbcrToRgb y0 (JInt 128) (JInt 128)) = b (ycbcrToRgb y0 (JInt 128) (JInt 128)).
Proof.
  destruct neutral_products as (E0 & E1 & E2 & E3 & E4).
  unfold ycbcrToRgb. cbn [to_number r g b].
  rewrite E0, E1, E2, E3, E4, !round_add_zero, round_sub_zero. split; reflexivity.
Qed.

(** X5: the two transforms are not inverse to each other, not even on the
    greys: [rgbToYcbcr] keeps the full-range luma and clamps it, [ycbcrToRgb]
    stretches [16,235] to [0,255].  A grey (v, v, v) comes back as a grey
    (w, w, w) with |w - v| <= 20. *)
Theorem grey_round_trip (v : Z) :
  0 <= v <= 255 ->
  exists w,
    there_and_back (JInt v) (JInt v) (JInt v) = rgb_of w w w /\
    Z.abs (w - v) <= 20.
Proof.
  intros Hv. apply grey_within_spec.
  apply (forall_below_spec 256 _ grey_back_all v).
  change (Z.of_nat 256) with 256. lia.
Qed.

Lemma grey_round_trip_witness :
  0 <= 235 <= 255 /\
  exists w,
    there_and_back (JInt 235) (JInt 235) (JInt 235) = rgb_of w w w /\
    Z.abs (w - 235) <= 20.
Proof.
  assert (H : 0 <= 235 <= 255) by lia.
  exact (conj H (grey_round_trip 235 H)).
Defined.

(** The bound is attained at 235; 50 comes back as 40. *)
Example grey_round_trip_sharp :
  there_and_back (JInt 235) (JInt 235) (JInt 235) = rgb_of 255 255 255 /\
  there_and_back (JInt 50) (JInt 50) (JInt 50) = rgb_of 40 40 40.
Proof. split; vm_compute; reflexivity. Qed.

(** ** Reading and writing hexadecimal colours *)

Lemma hex_char_facts : forall d,
  is_hex_char d = true ->
  0 <= hex_value d < 16 /\
  upper_hex_digit (hex_value d) = (if is_lower d then (d - 32)%N else d) /\
  is_hex_char (if is_lower d then (d - 32)%N else d) = true /\
  hex_value (if is_lower d then (d - 32)%N else d) = hex_value d.
Proof.
  intros d H. pose proof (hex_char_ascii d H) as Ha.
  assert (Hb : forall_below 128 (fun z =>
    let d := Z.to_N z in
    negb (is_hex_char d) ||
    ((0 <=? hex_value d) && (hex_value d <? 16) &&
     (upper_hex_digit (hex_value d) =? (if is_lower d then d - 32 else d))%N &&
     is_hex_char (if is_lower d then (d - 32)%N else d) &&
     (hex_value (if is_lower d then (d - 32)%N else d) =? hex_value d))) = true)
    by (vm_compute; reflexivity).
  pose proof (forall_below_spec _ _ Hb (Z.of_N d)) as Hc.
  cbv beta zeta in Hc. rewrite N2Z.id, H in Hc. cbn [negb orb] in Hc.
  specialize (Hc ltac:(change (Z.of_nat 128) with 128; lia)).
  repeat (apply andb_prop in Hc; destruct Hc as [Hc ?]).
  repeat split;
    first [apply Z.leb_le; assumption | apply Z.ltb_lt; assumption
          | apply N.eqb_eq; assumption | apply Z.eqb_eq; assumption | assumption].
Qed.

Lemma byte_of_range d1 d2 :
  is_hex_char d1 = true -> is_hex_char d2 = true -> 0 <= byte_of d1 d2 <= 255.
Proof.
  intros H1 H2. destruct (hex_char_facts d1 H1) as (A & _).
  destruct (hex_char_facts d2 H2) as (B & _). unfold byte_of. lia.
Qed.

Lemma upper_hex2_byte_of d1 d2 :
  is_hex_char d1 = true -> is_hex_char d2 = true ->
  upper_hex2 (byte_of d1 d2) = toUpperCase [d1; d2].
Proof.
  intros H1 H2. destruct (hex_char_facts d1 H1) as (A & A' & _).
  destruct (hex_char_facts d2 H2) as (B & B' & _).
  unfold upper_hex2, byte_of, toUpperCase. cbn [map].
  replace ((16 * hex_value d1 + hex_value d2) / 16) with (hex_value d1)
    by (Z.to_euclidean_division_equations; lia).
  replace ((16 * hex_value d1 + hex_value d2) mod 16) with (hex_value d2)
    by (Z.to_euclidean_division_equations; lia).
  rewrite A', B'. reflexivity.
Qed.

Lemma forallb6 (p : codeunit -> bool) d1 d2 d3 d4 d5 d6 :
  forallb p [d1; d2; d3; d4; d5; d6] = true ->
  p d1 = true /\ p d2 = true /\ p d3 = true /\ p d4 = true /\ p d5 = true /\
  p d6 = true.
Proof.
  cbn [forallb]. rewrite !andb_true_iff. tauto.
Qed.

(** What [hexToRgb] returns is three bytes. *)
Lemma hexToRgb_bytes s rgb :
  hexToRgb s = Some rgb ->
  exists r g b, rgb = rgb_of r g b /\
    0 <= r <= 255 /\ 0 <= g <= 255 /\ 0 <= b <= 255.
Proof.
  intros H. apply hexToRgb_some in H.
  destruct H as (d1 & d2 & d3 & d4 & d5 & d6 & (_ & _ & F) & ->).
  apply forallb6 in F. destruct F as (F1 & F2 & F3 & F4 & F5 & F6).
  do 3 eexists. split; [reflexivity|].
  auto using byte_of_range.
Qed.

(** Reading what [rgbToHex] wrote. *)
Lemma read_back r g b :
  0 <= r <= 255 -> 0 <= g <= 255 -> 0 <= b <= 255 ->
  hexToRgb (rgbToHex (JInt r) (JInt g) (JInt b)) = Some (rgb_of r g b).
Proof.
  intros Hr Hg Hb. rewrite rgbToHex_bytes by assumption.
  apply hexToRgb_some. unfold lower_hex2. cbn [app].
  do 6 eexists. split.
  - unfold hex_pattern. split; [right; reflexivity|]. split; [reflexivity|].
    pose proof (lower_hex2_hex r Hr) as H1. pose proof (lower_hex2_hex g Hg) as H2.
    pose proof (lower_hex2_hex b Hb) as H3.
    unfold lower_hex2 in *. cbn [forallb] in *.
    apply andb_prop in H1, H2, H3.
    destruct H1 as [-> H1], H2 as [-> H2], H3 as [-> H3].
    rewrite andb_true_r in H1, H2, H3. rewrite H1, H2, H3. reflexivity.
  - rewrite !lower_hex2_byte by assumption. reflexivity.
Qed.

Lemma upper_form r g b :
  0 <= r <= 255 -> 0 <= g <= 255 -> 0 <= b <= 255 ->
  toUpperCase (rgbToHex (JInt r) (JInt g) (JInt b)) = upper_hex_form r g b.
Proof.
  intros Hr Hg Hb. rewrite rgbToHex_bytes by assumption.
  unfold upper_hex_form. rewrite <- !lower_hex2_upper by assumption.
  unfold toUpperCase. cbn [map]. rewrite !map_app. reflexivity.
Qed.

(** The upper-case form of the bytes of six digits is the six digits in
    upper case. *)
Lemma upper_hex_form_digits d1 d2 d3 d4 d5 d6 :
  forallb is_hex_char [d1; d2; d3; d4; d5; d6] = true ->
  upper_hex_form (byte_of d1 d2) (byte_of d3 d4) (byte_of d5 d6)
  = cu "#" :: toUpperCase [d1; d2; d3; d4; d5; d6].
Proof.
  intros F. apply forallb6 in F. destruct F as (F1 & F2 & F3 & F4 & F5 & F6).
  unfold upper_hex_form. rewrite !upper_hex2_byte_of by assumption. reflexivity.
Qed.

Lemma upper_is_hex :
  forall c, is_hex_char (if is_lower c then (c - 32)%N else c) = is_hex_char c.
Proof. by_ascii. Qed.

Lemma upper_is_sharp :
  forall c, ((if is_lower c then (c - 32)%N else c) =? 35)%N = (c =? 35)%N.
Proof. by_ascii. Qed.

Lemma byte_of_upper d1 d2 :
  is_hex_char d1 = true -> is_hex_char d2 = true ->
  byte_of (if is_lower d1 then (d1 - 32)%N else d1)
          (if is_lower d2 then (d2 - 32)%N else d2) = byte_of d1 d2.
Proof.
  intros F1 F2. unfold byte_of.
  destruct (hex_char_facts d1 F1) as (_ & _ & _ & ->).
  destruct (hex_char_facts d2 F2) as (_ & _ & _ & ->). reflexivity.
Qed.

Lemma parse_hex6_upper s : parse_hex6 (toUpperCase s) = parse_hex6 s.
Proof.
  destruct s as [|d1 [|d2 [|d3 [|d4 [|d5 [|d6 [|d7 s7]]]]]]]; try reflexivity.
  unfold parse_hex6, toUpperCase. cbn [map forallb].
  rewrite !upper_is_hex.
  destruct (is_hex_char d1) eqn:F1; [|reflexivity].
  destruct (is_hex_char d2) eqn:F2; [|reflexivity].
  destruct (is_hex_char d3) eqn:F3; [|reflexivity].
  destruct (is_hex_char d4) eqn:F4; [|reflexivity].
  destruct (is_hex_char d5) eqn:F5; [|reflexivity].
  destruct (is_hex_char d6) eqn:F6; [|reflexivity].
  cbn [andb]. f_equal. unfold rgb_of.
  f_equal; f_equal; apply byte_of_upper; assumption.
Qed.

(** Upper-casing a string does not change what [hexToRgb] reads in it. *)
Lemma hexToRgb_upper s : hexToRgb (toUpperCase s) = hexToRgb s.
Proof.
  rewrite !hexToRgb_eq. destruct s as [|a s']; [reflexivity|].
  change (toUpperCase (a :: s'))
    with ((if is_lower a then (a - 32)%N else a) :: toUpperCase s').
  cbv beta iota. rewrite upper_is_sharp.
  destruct (a =? 35)%N; [apply parse_hex6_upper|].
  apply (parse_hex6_upper (a :: s')).
Qed.

Lemma toUpperCase_hex ds :
  forallb is_hex_char (toUpperCase ds) = forallb is_hex_char ds.
Proof.
  induction ds as [|d ds IH]; [reflexivity|].
  change (toUpperCase (d :: ds))
    with ((if is_lower d then (d - 32)%N else d) :: toUpperCase ds).
  cbn [forallb]. rewrite upper_is_hex, IH. reflexivity.
Qed.

Lemma upper_idem (c : codeunit) :
  (if is_lower (if is_lower c then (c - 32)%N else c)
   then ((if is_lower c then (c - 32)%N else c) - 32)%N
   else (if is_lower c then (c - 32)%N else c))
  = (if is_lower c then (c - 32)%N else c).
Proof.
  destruct (is_lower c) eqn:E; [|rewrite E; reflexivity].
  unfold is_lower, in_range in *. cbn [fst snd] in *.
  apply andb_prop in E. destruct E as [A B]. apply N.leb_le in A, B.
  replace (97 <=? c - 32)%N with false by (symmetry; apply N.leb_gt; lia).
  reflexivity.
Qed.

Lemma toUpperCase_idem s : toUpperCase (toUpperCase s) = toUpperCase s.
Proof.
  induction s as [|c s IH]; [reflexivity|].
  change (toUpperCase (c :: s))
    with ((if is_lower c then (c - 32)%N else c) :: toUpperCase s).
  change (toUpperCase ((if is_lower c then (c - 32)%N else c) :: toUpperCase s))
    with ((if is_lower (if is_lower c then (c - 32)%N else c)
           then ((if is_lower c then (c - 32)%N else c) - 32)%N
           else (if is_lower c then (c - 32)%N else c))
          :: toUpperCase (toUpperCase s)).
  rewrite IH. f_equal. apply upper_idem.
Qed.

(** X6: what [hexToRgb] returns is never NaN: each channel is an integer
    in [0,255]. *)
Theorem hexToRgb_gives_bytes (s : jsstring) (rgb : RGB) :
  hexToRgb s = Some rgb ->
  exists r g b, rgb = rgb_of r g b /\
    0 <= r <= 255 /\ 0 <= g <= 255 /\ 0 <= b <= 255.
Proof. apply hexToRgb_bytes. Qed.

Lemma hexToRgb_gives_bytes_witness :
  hexToRgb (u "#3B82F6") = Some (rgb_of 59 130 246) /\
  exists r g b, rgb_of 59 130 246 = rgb_of r g b /\
    0 <= r <= 255 /\ 0 <= g <= 255 /\ 0 <= b <= 255.
Proof.
  assert (H : hexToRgb (u "#3B82F6") = Some (rgb_of 59 130 246))
    by (vm_compute; reflexivity).
  exact (conj H (hexToRgb_gives_bytes _ _ H)).
Defined.

(** X7: writing back what [hexToRgb] read gives the string that was read,
    up to the case of the digits and the leading [#]; reading that again
    gives the same channels. *)
Theorem rgbToHex_hexToRgb (s ds : jsstring) (rgb : RGB) :
  hex_pattern s ds -> hexToRgb s = Some rgb ->
  toUpperCase (rgbToHex (r rgb) (g rgb) (b rgb)) = cu "#" :: toUpperCase ds /\
  hexToRgb (rgbToHex (r rgb) (g rgb) (b rgb)) = Some rgb.
Proof.
  intros Hp H. apply hexToRgb_some in H.
  destruct H as (d1 & d2 & d3 & d4 & d5 & d6 & (E & _ & F) & ->).
  assert (ds = [d1; d2; d3; d4; d5; d6]) as ->.
  { destruct Hp as ([E'|E'] & L & F'), E as [E|E].
    - congruence.
    - rewrite E' in E. rewrite E in L. discriminate.
    - rewrite E' in E. injection E as E1 _. rewrite <- E1 in F. discriminate.
    - congruence. }
  pose proof F as F0. apply forallb6 in F0.
  destruct F0 as (F1 & F2 & F3 & F4 & F5 & F6).
  cbn [rgb_of r g b].
  pose proof (byte_of_range d1 d2 F1 F2). pose proof (byte_of_range d3 d4 F3 F4).
  pose proof (byte_of_range d5 d6 F5 F6).
  split.
  - rewrite upper_form by assumption. apply upper_hex_form_digits, F.
  - apply read_back; assumption.
Qed.

Lemma rgbToHex_hexToRgb_witness :
  (hex_pattern (u "3B82f6") (u "3B82f6") /\
   hexToRgb (u "3B82f6") = Some (rgb_of 59 130 246)) /\
  toUpperCase (rgbToHex (JInt 59) (JInt 130) (JInt 246))
  = cu "#" :: toUpperCase (u "3B82f6") /\
  hexToRgb (rgbToHex (JInt 59) (JInt 130) (JInt 246)) = Some (rgb_of 59 130 246).
Proof.
  assert (Hp : hex_pattern (u "3B82f6") (u "3B82f6"))
    by (split; [left; reflexivity|split; reflexivity]).
  assert (H : hexToRgb (u "3B82f6") = Some (rgb_of 59 130 246))
    by (vm_compute; reflexivity).
  exact (conj (conj Hp H) (rgbToHex_hexToRgb _ _ _ Hp H)).
Defined.

(** X8: [hexToRgb] does not tell the cases apart: on an ASCII string,
    upper-casing the argument does not change the result. *)
Theorem hexToRgb_ignores_case (s : jsstring) :
  forallb (fun c => (c <? 128)%N) s = true ->
  hexToRgb (toUpperCase s) = hexToRgb s.
Proof. intros _. apply hexToRgb_upper. Qed.

Lemma hexToRgb_ignores_case_witness :
  forallb (fun c => (c <? 128)%N) (u "#3b82f6") = true /\
  hexToRgb (toUpperCase (u "#3b82f6")) = hexToRgb (u "#3b82f6").
Proof.
  assert (H : forallb (fun c => (c <? 128)%N) (u "#3b82f6") = true) by reflexivity.
  exact (conj H (hexToRgb_ignores_case _ H)).
Defined.

(** ** Channels out of range *)

Lemma shl32_small c n :
  0 <= c -> 0 <= n <= 16 -> c * 2 ^ n < 2 ^ 31 -> shl32 (JInt c) n = c * 2 ^ n.
Proof.
  intros Hc Hn Hs. unfold shl32, ToInt32, wrap32.
  replace (Z.land n 31) with n.
  2:{ assert (Hb : forall_below 17 (fun n => Z.land n 31 =? n) = true) by reflexivity.
      symmetry. apply Z.eqb_eq. apply (forall_below_spec _ _ Hb).
      change (Z.of_nat 17) with 17. lia. }
  assert (0 < 2 ^ n) by (apply Z.pow_pos_nonneg; lia).
  assert (c < 2 ^ 31) by nia.
  change (2 ^ 31) with 2147483648 in *. change (2 ^ 32) with 4294967296.
  rewrite (Z.mod_small (c + 2147483648)) by lia.
  replace (c + 2147483648 - 2147483648) with c by lia.
  rewrite Z.shiftl_mul_pow2 by lia.
  rewrite Z.mod_small by nia. lia.
Qed.

(** X9: [rgbToHex] does not check its arguments.  For channels that are
    not negative, as long as 65536 r + 256 g + b stays below 15 * 2^24, a
    channel above 255 carries into the next one, and the result is the colour
    of that number modulo 2^24. *)
Theorem rgbToHex_carries (r g b : Z) :
  0 <= r < 32768 -> 0 <= g < 8388608 -> 0 <= b ->
  65536 * r + 256 * g + b < 15 * 16777216 ->
  rgbToHex (JInt r) (JInt g) (JInt b)
  = rgbToHex (JInt ((65536 * r + 256 * g + b) / 65536 mod 256))
             (JInt ((65536 * r + 256 * g + b) / 256 mod 256))
             (JInt ((65536 * r + 256 * g + b) mod 256)).
Proof.
  intros Hr Hg Hb Hn.
  set (n := 65536 * r + 256 * g + b) in *.
  assert (Hn0 : 0 <= n) by (unfold n; lia).
  rewrite (rgbToHex_bytes (n / 65536 mod 256) (n / 256 mod 256) (n mod 256))
    by (repeat split; Z.to_euclidean_division_equations; lia).
  unfold rgbToHex.
  rewrite (shl32_small r 16), (shl32_small g 8)
    by (try change (2 ^ 16) with 65536; try change (2 ^ 8) with 256;
        try change (2 ^ 31) with 2147483648; lia).
  change (shl32 (JInt 1) 24) with 16777216.
  change (2 ^ 16) with 65536. change (2 ^ 8) with 256.
  cbn [int_add toString16].
  replace (16777216 + r * 65536 + g * 256 + b) with (16777216 + n) by (unfold n; lia).
  clearbody n. clear Hr Hg Hb.
  destruct (Z.ltb_spec (16777216 + n) 0); [lia|].
  set (m := 1 + n / 16777216).
  assert (Hm : 1 <= m < 16) by (unfold m; Z.to_euclidean_division_equations; lia).
  assert (Hlog : 24 <= Z.log2 (16777216 + n))
    by (change 24 with (Z.log2 16777216); apply Z.log2_le_mono; lia).
  destruct (Z.to_nat (Z.log2 (16777216 + n))) as [|[|[|[|[|[|k]]]]]] eqn:Ek; try lia.
  replace (16777216 + n)
    with (256 * (256 * (256 * m + n / 65536 mod 256) + n / 256 mod 256) + n mod 256)
    by (unfold m; Z.to_euclidean_division_equations; lia).
  rewrite !hex_digits_byte
    by (try (Z.to_euclidean_division_equations; lia); lia).
  rewrite hex_digits_small by lia. reflexivity.
Qed.

Lemma rgbToHex_carries_witness :
  (0 <= 0 < 32768 /\ 0 <= 0 < 8388608 /\ 0 <= 256 /\
   65536 * 0 + 256 * 0 + 256 < 15 * 16777216) /\
  rgbToHex (JInt 0) (JInt 0) (JInt 256)
  = rgbToHex (JInt ((65536 * 0 + 256 * 0 + 256) / 65536 mod 256))
             (JInt ((65536 * 0 + 256 * 0 + 256) / 256 mod 256))
             (JInt ((65536 * 0 + 256 * 0 + 256) mod 256)).
Proof.
  assert (H1 : 0 <= 0 < 32768) by lia.
  assert (H2 : 0 <= 0 < 8388608) by lia.
  assert (H3 : 0 <= 256) by lia.
  assert (H4 : 65536 * 0 + 256 * 0 + 256 < 15 * 16777216) by lia.
  exact (conj (conj H1 (conj H2 (conj H3 H4))) (rgbToHex_carries 0 0 256 H1 H2 H3 H4)).
Defined.

(** A blue channel of 256 is written as one unit of green, a red channel of
    256 as black; a negative channel leaves five digits only. *)
Example rgbToHex_out_of_range :
  rgbToHex (JInt 0) (JInt 0) (JInt 256) = u "#000100" /\
  rgbToHex (JInt 256) (JInt 0) (JInt 0) = u "#000000" /\
  rgbToHex (JInt 0) (JInt 0) (JInt (-1)) = u "#fffff".
Proof. repeat split; vm_compute; reflexivity. Qed.

(** ** The validator and the display *)

(** The call reads the raw text and the format only: with another colour in
    the cell it accepts the same inputs and writes the same colour. *)
Lemma run_set_currentColor st c0 :
  validateAndConvertColor_run (set_currentColor st c0)
  = match validateAndConvertColor_run st with
    | (st1, Some rgb) => (set_currentColor st (currentColor st1), Some rgb)
    | (_, None) => (set_currentColor st c0, None)
    end.
Proof.
  unfold validateAndConvertColor_run. cbn [colorInput inputType set_currentColor].
  destruct (colorInput st) as [|c s]; [reflexivity|].
  destruct (inputType st).
  - destruct (test false re_hex_input (c :: s)); [|reflexivity].
    destruct (hexToRgb _); reflexivity.
  - destruct (exec false re_triple (c :: s)); [|reflexivity].
    match goal with |- context [if ?b then _ else _] => destruct b end; reflexivity.
  - destruct (exec false re_triple (c :: s)); [|reflexivity].
    match goal with |- context [if ?b then _ else _] => destruct b end; reflexivity.
Qed.

Lemma validate_idempotent st :
  validateAndConvertColor (validateAndConvertColor st) = validateAndConvertColor st.
Proof.
  unfold validateAndConvertColor.
  destruct (run_shape st) as [(c & rgb & E)|E]; rewrite E; cbn [fst].
  - rewrite run_set_currentColor, E. reflexivity.
  - rewrite E. reflexivity.
Qed.

Lemma ycbcr_in_range r g b :
  0 <= r <= 255 -> 0 <= g <= 255 -> 0 <= b <= 255 ->
  exists y cb cr,
    rgbToYcbcr (JInt r) (JInt g) (JInt b) = ycbcr_of y cb cr /\
    16 <= y <= 235 /\ 16 <= cb <= 240 /\ 16 <= cr <= 240.
Proof.
  intros Hr Hg Hb. rewrite rgbToYcbcr_clamped by assumption.
  do 3 eexists. split; [reflexivity|].
  repeat split; apply clampZ_range; lia.
Qed.

(** What the display shows for a valid colour in the cell. *)
Lemma valid_color_display st :
  valid_color (currentColor st) ->
  exists r g b,
    (0 <= r <= 255 /\ 0 <= g <= 255 /\ 0 <= b <= 255) /\
    hexToRgb (currentColor st) = Some (rgb_of r g b) /\
    colorInfo st = Some {| info_hex := upper_hex_form r g b;
                           info_rgb := rgb_of r g b;
                           info_ycbcr := rgbToYcbcr (JInt r) (JInt g) (JInt b) |}.
Proof.
  intros Hv. destruct (valid_color_info st Hv) as (rgb & Hh & Hi).
  destruct Hv as (d1 & d2 & d3 & d4 & d5 & d6 & Ec & F).
  assert (Hrgb : rgb = rgb_of (byte_of d1 d2) (byte_of d3 d4) (byte_of d5 d6)).
  { assert (H : hexToRgb (currentColor st)
                = Some (rgb_of (byte_of d1 d2) (byte_of d3 d4) (byte_of d5 d6))).
    { apply hexToRgb_some. exists d1, d2, d3, d4, d5, d6. split; [|reflexivity].
      split; [right; exact Ec|]. split; [reflexivity|exact F]. }
    congruence. }
  subst rgb. pose proof F as F0. apply forallb6 in F0.
  destruct F0 as (F1 & F2 & F3 & F4 & F5 & F6).
  exists (byte_of d1 d2), (byte_of d3 d4), (byte_of d5 d6).
  split; [auto using byte_of_range|]. split; [exact Hh|].
  rewrite Hi, Ec. rewrite (upper_hex_form_digits _ _ _ _ _ _ F). reflexivity.
Qed.

(** The display after a call that wrote [rgbToHex r g b]. *)
Lemma display_of_written st r g b :
  0 <= r <= 255 -> 0 <= g <= 255 -> 0 <= b <= 255 ->
  colorInfo (set_currentColor st (rgbToHex (JInt r) (JInt g) (JInt b)))
  = Some {| info_hex := upper_hex_form r g b;
            info_rgb := rgb_of r g b;
            info_ycbcr := rgbToYcbcr (JInt r) (JInt g) (JInt b) |}.
Proof.
  intros Hr Hg Hb. unfold colorInfo. cbn [currentColor set_currentColor].
  rewrite read_back, upper_form by assumption.
  rewrite rgbToHex_bytes by assumption. reflexivity.
Qed.

(** The display reads the colour cell without regard to the case of its
    letters. *)
Lemma colorInfo_upper st st' :
  currentColor st' = toUpperCase (currentColor st) -> colorInfo st' = colorInfo st.
Proof.
  unfold colorInfo. intros ->. rewrite hexToRgb_upper, toUpperCase_idem.
  destruct (currentColor st); reflexivity.
Qed.

(** The [hex] case on a string of the pattern. *)
Lemma run_hex_pattern st d1 d2 d3 d4 d5 d6 :
  inputType st = FmtHex ->
  hex_pattern (colorInput st) [d1; d2; d3; d4; d5; d6] ->
  validateAndConvertColor_run st
  = (set_currentColor st [cu "#"; d1; d2; d3; d4; d5; d6],
     Some (rgb_of (byte_of d1 d2) (byte_of d3 d4) (byte_of d5 d6))).
Proof.
  intros Hf Hp.
  assert (Hs : hexToRgb (colorInput st)
               = Some (rgb_of (byte_of d1 d2) (byte_of d3 d4) (byte_of d5 d6)))
    by (apply hexToRgb_some; exists d1, d2, d3, d4, d5, d6; auto).
  assert (Hw : (if startsWith (colorInput st) (cu "#") then colorInput st
                else cu "#" :: colorInput st) = [cu "#"; d1; d2; d3; d4; d5; d6]).
  { destruct Hp as ([E|E] & L & F); rewrite E.
    - cbn [startsWith]. change (cu "#") with 35%N.
      rewrite (hex_pattern_not_sharp _ d1 _ L F eq_refl). reflexivity.
    - reflexivity. }
  rewrite (run_hex st Hf), Hs, Hw. reflexivity.
Qed.



(** X11: under the formats [rgb] and [ycbcr], after an accepted input the
    colour cell holds the colour the triple stands for, in lower-case
    digits, and the display shows that colour: its upper-case form, its
    channels, and their transform.  Under [rgb] the channels are the typed
    values. *)
Theorem accepted_triple_is_displayed (st : State) (d1 d2 d3 : jsstring) :
  first_triple (colorInput st) d1 d2 d3 ->
  in_format_range (inputType st)
    (decimal_value d1) (decimal_value d2) (decimal_value d3) ->
  exists r g b,
    converted (inputType st) (decimal_value d1) (decimal_value d2) (decimal_value d3)
    = rgb_of r g b /\
    (0 <= r <= 255 /\ 0 <= g <= 255 /\ 0 <= b <= 255) /\
    currentColor (validateAndConvertColor st)
    = cu "#" :: lower_hex2 r ++ lower_hex2 g ++ lower_hex2 b /\
    colorInfo (validateAndConvertColor st)
    = Some {| info_hex := upper_hex_form r g b;
              info_rgb := rgb_of r g b;
              info_ycbcr := rgbToYcbcr (JInt r) (JInt g) (JInt b) |}.
Proof.
  intros Hs Hr. apply triple_search_first in Hs.
  pose proof (run_triple_accept st d1 d2 d3 Hs Hr) as Hrun. cbv zeta in Hrun.
  destruct (converted_in_range _ _ _ _ Hr) as (r0 & g0 & b0 & Ec & Hr0 & Hg0 & Hb0).
  rewrite Ec in Hrun. cbn [rgb_of r g b] in Hrun.
  exists r0, g0, b0. split; [exact Ec|]. split; [auto|].
  unfold validateAndConvertColor. rewrite Hrun. cbn [fst].
  split; [apply rgbToHex_bytes; assumption|].
  apply display_of_written; assumption.
Qed.

Lemma accepted_triple_is_displayed_witness :
  (first_triple (colorInput st_typed_rgb) (u "12") (u "200") (u "7") /\
   in_format_range (inputType st_typed_rgb)
     (decimal_value (u "12")) (decimal_value (u "200")) (decimal_value (u "7"))) /\
  exists r g b,
    converted (inputType st_typed_rgb)
      (decimal_value (u "12")) (decimal_value (u "200")) (decimal_value (u "7"))
    = rgb_of r g b /\
    (0 <= r <= 255 /\ 0 <= g <= 255 /\ 0 <= b <= 255) /\
    currentColor (validateAndConvertColor st_typed_rgb)
    = cu "#" :: lower_hex2 r ++ lower_hex2 g ++ lower_hex2 b /\
    colorInfo (validateAndConvertColor st_typed_rgb)
    = Some {| info_hex := upper_hex_form r g b;
              info_rgb := rgb_of r g b;
              info_ycbcr := rgbToYcbcr (JInt r) (JInt g) (JInt b) |}.
Proof.
  assert (H1 : first_triple (colorInput st_typed_rgb) (u "12") (u "200") (u "7"))
    by (apply triple_search_first; vm_compute; reflexivity).
  assert (H2 : in_format_range (inputType st_typed_rgb)
     (decimal_value (u "12")) (decimal_value (u "200")) (decimal_value (u "7")))
    by (vm_compute; repeat split; discriminate).
  exact (conj (conj H1 H2) (accepted_triple_is_displayed st_typed_rgb _ _ _ H1 H2)).
Defined.

(** X12: in every reachable state the three lines of the display agree:
    the channels are bytes, the hexadecimal line is their upper-case form,
    and the YCbCr line is their transform, within [16,235] and [16,240]. *)
Theorem display_is_consistent (st : State) :
  reachable st ->
  exists r g b y cb cr,
    (0 <= r <= 255 /\ 0 <= g <= 255 /\ 0 <= b <= 255) /\
    (16 <= y <= 235 /\ 16 <= cb <= 240 /\ 16 <= cr <= 240) /\
    rgbToYcbcr (JInt r) (JInt g) (JInt b) = ycbcr_of y cb cr /\
    colorInfo st = Some {| info_hex := upper_hex_form r g b;
                           info_rgb := rgb_of r g b;
                           info_ycbcr := ycbcr_of y cb cr |}.
Proof.
  intros H. apply reachable_valid in H.
  destruct (valid_color_display st H) as (r0 & g0 & b0 & (Hr & Hg & Hb) & _ & Hi).
  destruct (ycbcr_in_range r0 g0 b0 Hr Hg Hb) as (y0 & cb0 & cr0 & Ey & Hy).
  exists r0, g0, b0, y0, cb0, cr0.
  split; [auto|]. split; [exact Hy|]. split; [exact Ey|].
  rewrite Hi, Ey. reflexivity.
Qed.

Lemma display_is_consistent_witness :
  reachable st_after_ycbcr /\
  exists r g b y cb cr,
    (0 <= r <= 255 /\ 0 <= g <= 255 /\ 0 <= b <= 255) /\
    (16 <= y <= 235 /\ 16 <= cb <= 240 /\ 16 <= cr <= 240) /\
    rgbToYcbcr (JInt r) (JInt g) (JInt b) = ycbcr_of y cb cr /\
    colorInfo st_after_ycbcr = Some {| info_hex := upper_hex_form r g b;
                           info_rgb := rgb_of r g b;
                           info_ycbcr := ycbcr_of y cb cr |}.
Proof.
  assert (Hr : reachable st_after_ycbcr) by (apply reach_step, reach_step, reach_initial).
  exact (conj Hr (display_is_consistent st_after_ycbcr Hr)).
Defined.

(** X13: the convert button never changes a reachable state: the input
    event has already run the validation on the same text, and the call is
    idempotent. *)
Theorem convert_button_is_redundant (st : State) :
  reachable st ->
  handle st ClickConvert = st /\
  forall text, handle (handle st (Input text)) ClickConvert = handle st (Input text).
Proof.
  intros H. split.
  - cbn [handle]. induction H as [|st ev H IH].
    + reflexivity.
    + destruct ev as [text| |f]; cbn [handle].
      * apply validate_idempotent.
      * apply validate_idempotent.
      * destruct (Format_eqb f (inputType st)); [exact IH|reflexivity].
  - intros text. cbn [handle]. apply validate_idempotent.
Qed.

Lemma convert_button_is_redundant_witness :
  reachable st_after_ycbcr /\
  handle st_after_ycbcr ClickConvert = st_after_ycbcr /\
  forall text,
    handle (handle st_after_ycbcr (Input text)) ClickConvert
    = handle st_after_ycbcr (Input text).
Proof.
  assert (Hr : reachable st_after_ycbcr) by (apply reach_step, reach_step, reach_initial).
  exact (conj Hr (convert_button_is_redundant st_after_ycbcr Hr)).
Defined.

(** X14: the call reads the raw text and the format only.  Whether it
    accepts, and the state it leaves when it accepts, do not depend on the
    colour that was in the cell. *)
Theorem previous_color_is_ignored (st : State) (c0 : jsstring) :
  accepted (set_currentColor st c0) = accepted st /\
  (accepted st = true ->
   validateAndConvertColor (set_currentColor st c0) = validateAndConvertColor st).
Proof.
  unfold accepted, validateAndConvertColor. rewrite run_set_currentColor.
  destruct (run_shape st) as [(c & rgb & E)|E]; rewrite E; cbn [fst snd].
  - split; reflexivity.
  - split; [reflexivity|discriminate].
Qed.

(** ** Copying the display and typing it back *)

Lemma digit_of_Z k : 0 <= k < 10 -> is_digit (Z.to_N (48 + k)) = true.
Proof.
  intros H.
  assert (Hb : forall_below 10 (fun k => is_digit (Z.to_N (48 + k))) = true)
    by reflexivity.
  apply (forall_below_spec 10 _ Hb k). change (Z.of_nat 10) with 10. lia.
Qed.

Lemma decimal_value_snoc d c :
  decimal_value (d ++ [c]) = 10 * decimal_value d + (Z.of_N c - 48).
Proof. unfold decimal_value. rewrite fold_left_app. reflexivity. Qed.

Lemma dec_digits_S f n :
  dec_digits (S f) n
  = if n <? 10 then [Z.to_N (48 + n)]
    else dec_digits f (n / 10) ++ [Z.to_N (48 + n mod 10)].
Proof. reflexivity. Qed.

Lemma dec_digits_spec fuel : forall n,
  0 <= n < 10 ^ Z.of_nat (S fuel) ->
  digits (dec_digits (S fuel) n) /\ decimal_value (dec_digits (S fuel) n) = n.
Proof.
  induction fuel as [|f IH]; intros n Hn.
  - change (10 ^ Z.of_nat 1) with 10 in Hn. cbn [dec_digits].
    destruct (Z.ltb_spec n 10) as [Hlt|Hge]; [|lia]. split.
    + split; [discriminate|]. cbn [forallb]. rewrite digit_of_Z by lia. reflexivity.
    + unfold decimal_value. cbn [fold_left]. rewrite Z2N.id by lia. lia.
  - rewrite dec_digits_S. destruct (Z.ltb_spec n 10) as [Hlt|Hge].
    + split.
      * split; [discriminate|]. cbn [forallb]. rewrite digit_of_Z by lia. reflexivity.
      * unfold decimal_value. cbn [fold_left]. rewrite Z2N.id by lia. lia.
    + rewrite Nat2Z.inj_succ, Z.pow_succ_r in Hn by lia.
      destruct (IH (n / 10)) as ((Hne & Hd) & Hv).
      { Z.to_euclidean_division_equations. lia. }
      split.
      * split.
        -- intros E. apply app_eq_nil in E. destruct E as [_ E]. discriminate.
        -- rewrite forallb_app, Hd. cbn [forallb].
           rewrite digit_of_Z by (Z.to_euclidean_division_equations; lia).
           reflexivity.
      * rewrite decimal_value_snoc, Hv.
        rewrite Z2N.id by (Z.to_euclidean_division_equations; lia).
        Z.to_euclidean_division_equations. lia.
Qed.

(** The decimal form of a natural number is a run of digits that
    [parseInt] reads back. *)
Lemma toString10_digits n :
  0 <= n ->
  digits (toString10 (JInt n)) /\ decimal_value (toString10 (JInt n)) = n.
Proof.
  intros Hn. cbn [toString10]. destruct (Z.ltb_spec n 0); [lia|].
  apply dec_digits_spec. split; [lia|].
  rewrite Nat2Z.inj_succ, Z2Nat.id by apply Z.log2_nonneg.
  destruct (Z.eq_dec n 0) as [->|Hne]; [reflexivity|].
  apply Z.lt_le_trans with (2 ^ Z.succ (Z.log2 n)).
  - apply Z.log2_spec. lia.
  - apply Z.pow_le_mono_l. lia.
Qed.

Lemma triple_search_head s t : triple_at s = Some t -> triple_search s = Some t.
Proof. intros H. destruct s; cbn [triple_search]; rewrite H; reflexivity. Qed.

(** The scan finds the three integers of a copied triple. *)
Lemma triple_text_search a b c :
  0 <= a -> 0 <= b -> 0 <= c ->
  triple_search (triple_text (JInt a) (JInt b) (JInt c))
  = Some (toString10 (JInt a), toString10 (JInt b), toString10 (JInt c)).
Proof.
  intros Ha Hb Hc.
  destruct (toString10_digits a Ha) as (Da & _).
  destruct (toString10_digits b Hb) as (Db & _).
  destruct (toString10_digits c Hc) as (Dc & _).
  apply triple_search_head.
  assert (Hp : triple_at_pos (triple_text (JInt a) (JInt b) (JInt c)) []
                 (toString10 (JInt a)) [32%N] (toString10 (JInt b)) [32%N]
                 (toString10 (JInt c)) []).
  { unfold triple_at_pos, triple_text.
    split; [rewrite app_nil_r; reflexivity|].
    split; [exact Da|]. split; [reflexivity|]. split; [exact Db|].
    split; [reflexivity|exact Dc]. }
  pose proof (triple_at_complete _ _ _ _ _ _ _ Hp) as H.
  cbn [take_while] in H. rewrite app_nil_r in H. exact H.
Qed.

(** Typing a copied triple under a format whose range holds it. *)
Lemma typed_triple st v1 v2 v3 :
  0 <= v1 -> 0 <= v2 -> 0 <= v3 ->
  in_format_range (inputType st) v1 v2 v3 ->
  let st1 := set_colorInput st (triple_text (JInt v1) (JInt v2) (JInt v3)) in
  let rgb := converted (inputType st) v1 v2 v3 in
  validateAndConvertColor_run st1
  = (set_currentColor st1 (rgbToHex (r rgb) (g rgb) (b rgb)), Some rgb).
Proof.
  intros H1 H2 H3 Hr st1 rgb.
  destruct (toString10_digits v1 H1) as (_ & E1).
  destruct (toString10_digits v2 H2) as (_ & E2).
  destruct (toString10_digits v3 H3) as (_ & E3).
  pose proof (run_triple_accept st1 _ _ _ (triple_text_search v1 v2 v3 H1 H2 H3)) as H.
  rewrite E1, E2, E3 in H. apply H. exact Hr.
Qed.

(** X15: in a reachable state under the format [hex], the text of the HEX
    copy button is accepted when it is typed back; it becomes the colour of
    the cell and the display stays as it was. *)
Theorem copied_hex_can_be_typed_back (st : State) :
  reachable st -> inputType st = FmtHex ->
  exists text,
    copied_text st CopyHex = Some text /\
    accepted (set_colorInput st text) = true /\
    currentColor (handle st (Input text)) = text /\
    colorInfo (handle st (Input text)) = colorInfo st.
Proof.
  intros H Hf. apply reachable_valid in H.
  destruct (valid_color_info st H) as (rgb & Hh & Hi).
  destruct H as (d1 & d2 & d3 & d4 & d5 & d6 & Ec & F).
  exists (toUpperCase (currentColor st)).
  split; [unfold copied_text; rewrite Hi; reflexivity|].
  set (st1 := set_colorInput st (toUpperCase (currentColor st))).
  set (up := fun c : codeunit => if is_lower c then (c - 32)%N else c).
  assert (Hp : hex_pattern (colorInput st1) [up d1; up d2; up d3; up d4; up d5; up d6]).
  { split; [right; unfold st1; cbn [colorInput set_colorInput]; rewrite Ec;
            reflexivity|].
    split; [reflexivity|].
    rewrite <- F. apply (toUpperCase_hex [d1; d2; d3; d4; d5; d6]). }
  assert (Hrun : validateAndConvertColor_run st1
                 = (set_currentColor st1 (toUpperCase (currentColor st)),
                    Some (rgb_of (byte_of (up d1) (up d2)) (byte_of (up d3) (up d4))
                                 (byte_of (up d5) (up d6)))))
    by (rewrite (run_hex_pattern st1 _ _ _ _ _ _ Hf Hp), Ec; reflexivity).
  split; [unfold accepted; fold st1; rewrite Hrun; reflexivity|].
  cbn [handle]. fold st1. unfold validateAndConvertColor. rewrite Hrun. cbn [fst].
  split; [reflexivity|]. apply colorInfo_upper. reflexivity.
Qed.

Lemma copied_hex_can_be_typed_back_witness :
  (reachable initial /\ inputType initial = FmtHex) /\
  exists text,
    copied_text initial CopyHex = Some text /\
    accepted (set_colorInput initial text) = true /\
    currentColor (handle initial (Input text)) = text /\
    colorInfo (handle initial (Input text)) = colorInfo initial.
Proof.
  assert (H1 : reachable initial) by apply reach_initial.
  assert (H2 : inputType initial = FmtHex) by reflexivity.
  exact (conj (conj H1 H2) (copied_hex_can_be_typed_back initial H1 H2)).
Defined.

(** X16: in a reachable state under the format [rgb], the text of the RGB
    copy button is accepted when it is typed back, and the display stays as
    it was. *)
Theorem copied_rgb_can_be_typed_back (st : State) :
  reachable st -> inputType st = FmtRgb ->
  exists text,
    copied_text st CopyRgb = Some text /\
    accepted (set_colorInput st text) = true /\
    colorInfo (handle st (Input text)) = colorInfo st.
Proof.
  intros H Hf. apply reachable_valid in H.
  destruct (valid_color_display st H) as (r0 & g0 & b0 & (Hr & Hg & Hb) & _ & Hi).
  exists (triple_text (JInt r0) (JInt g0) (JInt b0)).
  split; [unfold copied_text; rewrite Hi; reflexivity|].
  assert (Hin : in_format_range (inputType st) r0 g0 b0)
    by (rewrite Hf; cbn [in_format_range]; auto).
  pose proof (typed_triple st r0 g0 b0 ltac:(lia) ltac:(lia) ltac:(lia) Hin) as Hrun.
  cbv zeta in Hrun. rewrite Hf in Hrun. cbn [converted rgb_of r g b] in Hrun.
  split; [unfold accepted; rewrite Hrun; reflexivity|].
  cbn [handle]. unfold validateAndConvertColor. rewrite Hrun. cbn [fst].
  rewrite display_of_written by assumption. symmetry. exact Hi.
Qed.

Lemma copied_rgb_can_be_typed_back_witness :
  (reachable st_rgb_mode /\ inputType st_rgb_mode = FmtRgb) /\
  exists text,
    copied_text st_rgb_mode CopyRgb = Some text /\
    accepted (set_colorInput st_rgb_mode text) = true /\
    colorInfo (handle st_rgb_mode (Input text)) = colorInfo st_rgb_mode.
Proof.
  assert (H1 : reachable st_rgb_mode) by apply reach_step, reach_initial.
  assert (H2 : inputType st_rgb_mode = FmtRgb) by reflexivity.
  exact (conj (conj H1 H2) (copied_rgb_can_be_typed_back st_rgb_mode H1 H2)).
Defined.

(** X17: in a reachable state under the format [ycbcr], the text of the
    YCbCr copy button is accepted when it is typed back: the displayed
    components always lie in the ranges of the validator.  The channels
    displayed afterwards are those of the two transforms one after the
    other, which need not be the channels displayed before. *)
Theorem copied_ycbcr_is_accepted (st : State) :
  reachable st -> inputType st = FmtYcbcr ->
  exists text info info',
    copied_text st CopyYcbcr = Some text /\
    accepted (set_colorInput st text) = true /\
    colorInfo st = Some info /\
    colorInfo (handle st (Input text)) = Some info' /\
    info_rgb info'
    = there_and_back (r (info_rgb info)) (g (info_rgb info)) (b (info_rgb info)).
Proof.
  intros H Hf. apply reachable_valid in H.
  destruct (valid_color_display st H) as (r0 & g0 & b0 & (Hr & Hg & Hb) & _ & Hi).
  destruct (ycbcr_in_range r0 g0 b0 Hr Hg Hb) as (y0 & cb0 & cr0 & Ey & Hy & Hcb & Hcr).
  assert (Hin : in_format_range (inputType st) y0 cb0 cr0)
    by (rewrite Hf; cbn [in_format_range]; auto).
  pose proof (typed_triple st y0 cb0 cr0 ltac:(lia) ltac:(lia) ltac:(lia) Hin) as Hrun.
  cbv zeta in Hrun.
  destruct (converted_in_range _ _ _ _ Hin) as (r1 & g1 & b1 & Ec & Hr1 & Hg1 & Hb1).
  rewrite Ec in Hrun. cbn [rgb_of r g b] in Hrun.
  exists (triple_text (JInt y0) (JInt cb0) (JInt cr0)).
  eexists. eexists.
  split; [unfold copied_text; rewrite Hi; cbn [info_ycbcr]; rewrite Ey; reflexivity|].
  split; [unfold accepted; rewrite Hrun; reflexivity|].
  split; [exact Hi|].
  cbn [handle]. unfold validateAndConvertColor. rewrite Hrun. cbn [fst].
  split; [apply display_of_written; assumption|].
  cbn [info_rgb rgb_of r g b]. unfold there_and_back. rewrite Ey.
  cbn [ycbcr_of y cb cr]. rewrite Hf in Ec. symmetry. exact Ec.
Qed.

Lemma copied_ycbcr_is_accepted_witness :
  (reachable st_ycbcr_mode /\ inputType st_ycbcr_mode = FmtYcbcr) /\
  exists text info info',
    copied_text st_ycbcr_mode CopyYcbcr = Some text /\
    accepted (set_colorInput st_ycbcr_mode text) = true /\
    colorInfo st_ycbcr_mode = Some info /\
    colorInfo (handle st_ycbcr_mode (Input text)) = Some info' /\
    info_rgb info'
    = there_and_back (r (info_rgb info)) (g (info_rgb info)) (b (info_rgb info)).
Proof.
  assert (H1 : reachable st_ycbcr_mode) by apply reach_step, reach_initial.
  assert (H2 : inputType st_ycbcr_mode = FmtYcbcr) by reflexivity.
  exact (conj (conj H1 H2) (copied_ycbcr_is_accepted st_ycbcr_mode H1 H2)).
Defined.

(** The default colour, copied as YCbCr and typed back, is another colour. *)
Example copied_ycbcr_changes_the_color :
  copied_text st_ycbcr_mode CopyYcbcr = Some (u "122, 198, 83") /\
  copied_text st_ycbcr_mode CopyRgb = Some (u "59, 130, 246") /\
  copied_text (handle st_ycbcr_mode (Input (u "122, 198, 83"))) CopyRgb
  = Some (u "52, 133, 255").
Proof. repeat split; vm_compute; reflexivity. Qed.

(** X18: [colorInfo] is null exactly when [hexToRgb] does not read the
    colour cell, that is when the cell is not six hexadecimal digits after an
    optional [#]; the test for the empty string adds nothing. *)
Theorem colorInfo_null (st : State) :
  (colorInfo st = None <-> hexToRgb (currentColor st) = None) /\
  (colorInfo st = None <-> ~ exists ds, hex_pattern (currentColor st) ds).
Proof.
  assert (H : colorInfo st = None <-> hexToRgb (currentColor st) = None).
  { unfold colorInfo. destruct (currentColor st) as [|c s].
    - split; reflexivity.
    - destruct (hexToRgb (c :: s)); split; intros E; try discriminate; reflexivity. }
  split; [exact H|]. rewrite H. apply hexToRgb_none.
Qed.

(** X19: the placeholder shown for a format is accepted under that
    format, whatever the state; the placeholders of [hex] and [rgb] both
    stand for the initial colour. *)
Theorem placeholder_is_accepted (st : State) :
  accepted (set_colorInput st (placeholder (inputType st))) = true /\
  (inputType st <> FmtYcbcr ->
   colorInfo (handle st (Input (placeholder (inputType st)))) = colorInfo initial).
Proof.
  destruct st as [text f c0]. cbn [inputType].
  destruct f; (split; [vm_compute; reflexivity|]); intros Hf;
    try (vm_compute; reflexivity).
  congruence.
Qed.

(** The example of the [ycbcr] format is another colour. *)
Example placeholder_ycbcr :
  option_map info_rgb
    (colorInfo (handle st_ycbcr_mode (Input (placeholder FmtYcbcr))))
  = Some (rgb_of 156 103 121).
Proof. vm_compute. reflexivity. Qed.

(** ** Every colour can be entered *)

(** X20: every colour can be entered.  For three bytes r, g, b, selecting
    the format [rgb] and typing "r, g, b" leads from the initial state to a
    state whose colour cell is [rgbToHex r g b] and whose display shows
    (r, g, b). *)
Theorem every_color_can_be_entered (r0 g0 b0 : Z) :
  0 <= r0 <= 255 -> 0 <= g0 <= 255 -> 0 <= b0 <= 255 ->
  let st := run [SelectFormat FmtRgb;
                 Input (triple_text (JInt r0) (JInt g0) (JInt b0))] in
  reachable st /\
  currentColor st = rgbToHex (JInt r0) (JInt g0) (JInt b0) /\
  colorInfo st = Some {| info_hex := upper_hex_form r0 g0 b0;
                         info_rgb := rgb_of r0 g0 b0;
                         info_ycbcr := rgbToYcbcr (JInt r0) (JInt g0) (JInt b0) |}.
Proof.
  intros Hr Hg Hb st. split; [apply reachable_run|].
  set (st0 := handle initial (SelectFormat FmtRgb)).
  assert (Hin : in_format_range (inputType st0) r0 g0 b0)
    by (change (inputType st0) with FmtRgb; cbn [in_format_range]; auto).
  pose proof (typed_triple st0 r0 g0 b0 ltac:(lia) ltac:(lia) ltac:(lia) Hin) as Hrun.
  cbv zeta in Hrun.
  change (converted (inputType st0) r0 g0 b0) with (rgb_of r0 g0 b0) in Hrun.
  cbn [rgb_of r g b] in Hrun.
  assert (Est : st = set_currentColor
                  (set_colorInput st0 (triple_text (JInt r0) (JInt g0) (JInt b0)))
                  (rgbToHex (JInt r0) (JInt g0) (JInt b0))).
  { unfold st, run. cbn [fold_left]. fold st0. cbn [handle].
    unfold validateAndConvertColor. rewrite Hrun. reflexivity. }
  rewrite Est. split; [reflexivity|].
  apply display_of_written; assumption.
Qed.

Lemma every_color_can_be_entered_witness :
  (0 <= 12 <= 255 /\ 0 <= 200 <= 255 /\ 0 <= 7 <= 255) /\
  let st := run [SelectFormat FmtRgb;
                 Input (triple_text (JInt 12) (JInt 200) (JInt 7))] in
  reachable st /\
  currentColor st = rgbToHex (JInt 12) (JInt 200) (JInt 7) /\
  colorInfo st = Some {| info_hex := upper_hex_form 12 200 7;
                         info_rgb := rgb_of 12 200 7;
                         info_ycbcr := rgbToYcbcr (JInt 12) (JInt 200) (JInt 7) |}.
Proof.
  assert (H1 : 0 <= 12 <= 255) by lia.
  assert (H2 : 0 <= 200 <= 255) by lia.
  assert (H3 : 0 <= 7 <= 255) by lia.
  exact (conj (conj H1 (conj H2 H3)) (every_color_can_be_entered 12 200 7 H1 H2 H3)).
Defined.
